(** * Dashboard.js: history/forecast reconciliation

    A shallow embedding of the data handling of
    [src/mlapp/client/src/components/Dashboard.js]: the normalisation of
    log entries and forecast points into chart points (lines 41-56), the
    merge into one series sorted by date (lines 59-61), the state updates
    of [loadData] (lines 27-70), [formatDate] (lines 72-79), the selection
    of the next forecast point (lines 90-96) and the confidence note of the
    summary card (line 145).

    JavaScript numbers are IEEE 754 binary64 values ([spec_float] at
    precision 53); API data are JSON values plus [undefined]; a thrown
    exception is [None].  What belongs to the JavaScript engine rather than
    to the component (string-to-number conversion, date parsing, locale
    formatting, the string form of objects) is the interface [Host]. *)

From Stdlib Require Import ZArith Lia Bool String List.
From Stdlib Require Import Floats.SpecFloat.
From Stdlib Require Import Sorting.Sorted.
From stdpp Require Import base option list strings pretty gmap.

Set Warnings "-register-all".

Local Open Scope string_scope.
Local Open Scope list_scope.
Local Open Scope Z_scope.

(** ** Numbers *)

Definition number := spec_float.

Definition prec : Z := 53.
Definition emax : Z := 1024.

Definition nan : number := S754_nan.
Definition zero : number := S754_zero false.
Definition infinity : number := S754_infinity false.

(** The Number value for an integer: the nearest binary64 value. *)
Definition of_Z (z : Z) : number := binary_normalize prec emax z 0 false.

Definition mul (x y : number) : number := SFmul prec emax x y.
Definition sub (x y : number) : number := SFsub prec emax x y.

Definition is_nan (x : number) : bool :=
  match x with S754_nan => true | _ => false end.

Definition is_finite (x : number) : bool :=
  match x with S754_zero _ | S754_finite _ _ _ => true | _ => false end.

(** [v > 0] and [v < 0] as [Array.prototype.sort] tests a comparator's result. *)
Definition positive_number (x : number) : bool := SFltb zero x.
Definition negative_number (x : number) : bool := SFltb x zero.

(** [Math.round]: the integer nearest to [x], ties towards +Infinity; the
    sign of a zero result is the sign of [x]. *)
Definition Math_round (x : number) : number :=
  match x with
  | S754_finite s m e =>
      if 0 <=? e then x
      else
        let r := Z.shiftr (cond_Zopp s (Zpos m) + 2 ^ (- e - 1)) (- e) in
        if r =? 0 then S754_zero s else of_Z r
  | _ => x
  end.

(** ** Values *)

Inductive value :=
  | VUndefined
  | VNull
  | VBool (b : bool)
  | VNumber (n : number)
  | VString (s : string)
  | VArray (xs : list value)
  | VObject (props : list (string * value)).

(** The engine's part.  [OrdinaryToString] is [ToPrimitive] on an array or
    object of API data: [Object.prototype.valueOf] returns the object
    itself, so the primitive is what [toString] gives (the join of an
    array, ["[object Object]"] for an object), and the conversion throws
    when an own, non-callable [toString] property hides the method.
    [Date_parse] gives the time value in milliseconds, [None] for NaN.
    [toLocaleDateString] is the en-US short month and day of a valid time
    value. *)
Class Host := {
  StringToNumber : string -> number;
  OrdinaryToString : value -> option string;
  Date_parse : string -> option Z;
  toLocaleDateString : Z -> string
}.

Fixpoint own_property (k : string) (props : list (string * value)) : value :=
  match props with
  | [] => VUndefined
  | (k', v) :: rest => if String.eqb k k' then v else own_property k rest
  end.

Definition nullish (v : value) : bool :=
  match v with VUndefined | VNull => true | _ => false end.

(** [v.k], for the property names the component reads ([data], [date],
    [duration], [hours], [range], [min], [max], [forecast], [confidence]):
    none of them is defined on a built-in prototype, so only an object's
    own properties answer; on [undefined] and [null] the access throws. *)
Definition Get (v : value) (k : string) : option value :=
  match v with
  | VUndefined | VNull => None
  | VObject props => Some (own_property k props)
  | _ => Some VUndefined
  end.

(** [v?.k] *)
Definition GetOpt (v : value) (k : string) : value :=
  match v with
  | VObject props => own_property k props
  | _ => VUndefined
  end.

(** [a ?? b] *)
Definition coalesce (a b : value) : value := if nullish a then b else a.

Definition truthy (x : number) : bool :=
  match x with S754_nan | S754_zero _ => false | _ => true end.

Definition ToBoolean (v : value) : bool :=
  match v with
  | VUndefined | VNull => false
  | VBool b => b
  | VNumber n => truthy n
  | VString s => negb (String.eqb s "")
  | VArray _ | VObject _ => true
  end.

(** [a || b] on numbers *)
Definition or_number (a b : number) : number := if truthy a then a else b.

(** ** Dates *)

(** A time value: milliseconds since the epoch, [None] for NaN. *)
Definition time := option Z.

Definition TimeClip (tv : option Z) : time :=
  match tv with
  | Some t => if Z.abs t <=? 8640000000000000 then Some t else None
  | None => None
  end.

(** The integer part of a number, [None] for NaN and the infinities. *)
Definition truncate (n : number) : option Z :=
  match n with
  | S754_zero _ => Some 0
  | S754_finite s m e => Some (cond_Zopp s (Z.shiftl (Zpos m) e))
  | _ => None
  end.

(** The Number value of a Date object, as [-] reads it. *)
Definition time_number (t : time) : number :=
  match t with Some z => of_Z z | None => nan end.

Definition Invalid_Date : string := "Invalid Date".

Section WithHost.
Context {host : Host}.

(** [Number(v)] *)
Definition Number (v : value) : option number :=
  match v with
  | VUndefined => Some nan
  | VNull => Some zero
  | VBool b => Some (if b then of_Z 1 else zero)
  | VNumber n => Some n
  | VString s => Some (StringToNumber s)
  | VArray _ | VObject _ => s ← OrdinaryToString v; Some (StringToNumber s)
  end.

(** [new Date(v)] *)
Definition newDate (v : value) : option time :=
  match v with
  | VString s => Some (TimeClip (Date_parse s))
  | VArray _ | VObject _ => s ← OrdinaryToString v; Some (TimeClip (Date_parse s))
  | _ => n ← Number v; Some (TimeClip (truncate n))
  end.

(** [d.toLocaleDateString('en-US', { month: 'short', day: 'numeric' })] *)
Definition Date_toLocaleDateString (d : time) : string :=
  match d with
  | Some t => toLocaleDateString t
  | None => Invalid_Date
  end.

(** Lines 72-79. *)
Definition formatDate (dateStr : value) : value :=
  match newDate dateStr with
  | Some date => VString (Date_toLocaleDateString date)
  | None => dateStr
  end.

End WithHost.

(** ** [Array.prototype.sort]

    ECMAScript leaves the sequence of comparator calls to the engine and
    fixes the result for a consistent comparator: the stable ordering of
    the elements.  The model is a stable insertion sort; it throws when a
    comparator call throws. *)
Section Sort.
Context {A : Type} (comparefn : A -> A -> option number).

(** A NaN from the comparator counts as [+0]. *)
Definition SortCompare (x y : A) : option number :=
  v ← comparefn x y; Some (if is_nan v then zero else v).

Fixpoint insert_by (x : A) (l : list A) : option (list A) :=
  match l with
  | [] => Some [x]
  | y :: l' =>
      v ← SortCompare x y;
      if positive_number v then r ← insert_by x l'; Some (y :: r)
      else Some (x :: y :: l')
  end.

Fixpoint sort (l : list A) : option (list A) :=
  match l with
  | [] => Some []
  | x :: l' => s ← sort l'; insert_by x s
  end.

End Sort.

Definition is_undefined (v : value) : bool :=
  match v with VUndefined => true | _ => false end.

(** On an array of values, [undefined] elements go last without a
    comparator call. *)
Definition Array_sort (comparefn : value -> value -> option number)
    (xs : list value) : option (list value) :=
  s ← sort comparefn (filter (λ v, is_undefined v = false) xs);
  Some (s ++ filter (λ v, is_undefined v = true) xs).

(** [xs.map(f)]; the call throws when the receiver is not an array. *)
Definition Array_map {B : Type} (f : value -> option B) (v : value) : option (list B) :=
  match v with
  | VArray xs => mapM f xs
  | _ => None
  end.

(** ** Chart points *)

Inductive kind := History | Forecast.

Record ChartPoint := {
  date : value;
  hours : number;
  min : number;
  max : number;
  type : kind
}.

Section Reconciliation.
Context {host : Host}.

(** [Number(e) || 0] *)
Definition Number_or_0 (e : option value) : option number :=
  v ← e; n ← Number v; Some (or_number n zero).

(** [Number(e) || Number(f.hours) || 0]; the second conversion runs only
    when the first is falsy. *)
Definition Number_or_hours (e : option value) (f : value) : option number :=
  v ← e; n ← Number v;
  if truthy n then Some n else Number_or_0 (Get f "hours").

(** Lines 41-46: the function mapped over the logs. *)
Definition historyPoint (log : value) : option ChartPoint :=
  d ← Get log "date";
  h ← Number_or_0 (Get log "duration");
  mn ← Number_or_0 (Get log "duration");
  mx ← Number_or_0 (Get log "duration");
  Some {| date := d; hours := h; min := mn; max := mx; type := History |}.

(** Lines 50-56: the function mapped over the forecast. *)
Definition forecastPoint (f : value) : option ChartPoint :=
  d ← Get f "date";
  h ← Number_or_0 (Get f "hours");
  mn ← Number_or_hours (r ← Get f "range"; Some (GetOpt r "min")) f;
  mx ← Number_or_hours (r ← Get f "range"; Some (GetOpt r "max")) f;
  Some {| date := d; hours := h; min := mn; max := mx; type := Forecast |}.

(** [(a, b) => new Date(a.date) - new Date(b.date)] on chart points. *)
Definition byDate (a b : ChartPoint) : option number :=
  da ← newDate (date a); db ← newDate (date b);
  Some (sub (time_number da) (time_number db)).

(** The same comparator on raw forecast points (line 94). *)
Definition byDateRaw (a b : value) : option number :=
  da ← Get a "date" ≫= newDate; db ← Get b "date" ≫= newDate;
  Some (sub (time_number da) (time_number db)).

Definition normalizeHistory (entries : value) : option (list ChartPoint) :=
  Array_map historyPoint entries.

Definition normalizeForecast (points : value) : option (list ChartPoint) :=
  Array_map forecastPoint points.

(** Lines 41-47. *)
Definition historyData (logsRes : value) : option (list ChartPoint) :=
  normalizeHistory (coalesce (GetOpt logsRes "data") (VArray [])) ≫= sort byDate.

(** Lines 50-56. *)
Definition forecastPoints (forecastRes : value) : option (list ChartPoint) :=
  normalizeForecast (coalesce (GetOpt (GetOpt forecastRes "data") "forecast") (VArray [])).

(** Lines 59-61: [[...historyData, ...forecastPoints].sort(...)]. *)
Definition merge (H F : list ChartPoint) : option (list ChartPoint) :=
  sort byDate (H ++ F).

Definition chartData (logsRes forecastRes : value) : option (list ChartPoint) :=
  h ← historyData logsRes;
  f ← forecastPoints forecastRes;
  merge h f.

(** Lines 41-61 again, with the two calls of [sort] (lines 47 and 61)
    handed to [sortfn]: the series as an engine with that sort builds
    it. *)
Definition chartData_with
    (sortfn : (ChartPoint -> ChartPoint -> option number) ->
              list ChartPoint -> option (list ChartPoint))
    (logsRes forecastRes : value) : option (list ChartPoint) :=
  h0 ← normalizeHistory (coalesce (GetOpt logsRes "data") (VArray []));
  h ← sortfn byDate h0;
  f ← forecastPoints forecastRes;
  sortfn byDate (h ++ f).

End Reconciliation.

(** ** Component state and [loadData] *)

(** How a request of the API client settles. *)
Inductive settled := Fulfilled (res : value) | Rejected (reason : value).

Record State := {
  stats : value;
  forecast : value;
  logs : list ChartPoint;
  loading : bool
}.

Definition defaultStats : value :=
  VObject [("totalHours", VNumber zero); ("avgPerDay", VNumber zero);
           ("entries", VNumber zero)].

(** Lines 17-20: the [useState] initial values. *)
Definition initialState : State :=
  {| stats := defaultStats; forecast := VNull; logs := []; loading := true |}.

(** Statements that update the state and may throw: the state reached so
    far survives the exception. *)
Definition Eff (A : Type) : Type := State -> State * option A.

#[local] Instance Eff_ret : MRet Eff := λ A a st, (st, Some a).
#[local] Instance Eff_bind : MBind Eff := λ A B k m st,
  match m st with
  | (st', Some a) => k a st'
  | (st', None) => (st', None)
  end.

Definition lift {A : Type} (r : option A) : Eff A := λ st, (st, r).

Definition setStats (v : value) : Eff unit := λ st,
  ({| stats := v; forecast := forecast st; logs := logs st; loading := loading st |}, Some tt).
Definition setForecast (v : value) : Eff unit := λ st,
  ({| stats := stats st; forecast := v; logs := logs st; loading := loading st |}, Some tt).
Definition setLogs (v : list ChartPoint) : Eff unit := λ st,
  ({| stats := stats st; forecast := forecast st; logs := v; loading := loading st |}, Some tt).
Definition setLoading (b : bool) : Eff unit := λ st,
  ({| stats := stats st; forecast := forecast st; logs := logs st; loading := b |}, Some tt).

(** [await Promise.all([a, b, c])]: the three results, or the exception of
    a rejected request. *)
Definition Promise_all (a b c : settled) : Eff (value * value * value) :=
  match a, b, c with
  | Fulfilled x, Fulfilled y, Fulfilled z => mret (x, y, z)
  | _, _, _ => lift None
  end.

(** [try { body } catch { handler } finally { fin }] where the handler
    does not throw. *)
Definition try_catch_finally (body handler fin : Eff unit) : Eff unit := λ st,
  match body st with
  | (st', Some _) => fin st'
  | (st', None) => (handler ≫= λ _, fin) st'
  end.

Section LoadData.
Context {host : Host}.

(** Lines 30-63, the [try] block. *)
Definition loadData_try (statsReq forecastReq logsReq : settled) : Eff unit :=
  '(statsRes, forecastRes, logsRes) ← Promise_all statsReq forecastReq logsReq;
  _ ← setStats (coalesce (GetOpt statsRes "data") defaultStats);
  _ ← setForecast (coalesce (GetOpt forecastRes "data") VNull);
  chart ← lift (chartData logsRes forecastRes);
  setLogs chart.

(** Lines 27-70.  The [catch] block only writes to the console. *)
Definition loadData (statsReq forecastReq logsReq : settled) (st : State) : State :=
  fst ((_ ← setLoading true;
        try_catch_finally (loadData_try statsReq forecastReq logsReq)
          (mret tt) (setLoading false)) st).

(** ** The summary card *)

(** Lines 90-96. *)
Definition nextForecast (forecast : value) : option value :=
  match coalesce (GetOpt forecast "forecast") (VArray []) with
  | VArray fcArr =>
      if (length fcArr =? 0)%nat then Some VNull
      else sorted ← Array_sort byDateRaw fcArr; Some (nth 0 sorted VUndefined)
  | _ => Some VNull
  end.

(** Line 145: the number shown before [%], [None] for the dash. *)
Definition confidencePercent (forecast : value) : option (option number) :=
  if ToBoolean (GetOpt forecast "confidence") then
    c ← Get forecast "confidence" ≫= Number;
    Some (Some (Math_round (mul c (of_Z 100))))
  else Some None.

(** What the card is rendered from (lines 139-149): the next forecast
    point with the confidence note, or "No forecast available".  The
    display of the point's own fields ([fmtNum], [formatDate]) is not part
    of it. *)
Inductive ForecastSummary :=
  | NoForecast
  | NextForecast (point : value) (confidence : option number).

Definition summarize (forecast : value) : option ForecastSummary :=
  p ← nextForecast forecast;
  if ToBoolean p then
    c ← confidencePercent forecast; Some (NextForecast p c)
  else Some NoForecast.

End LoadData.

(** ** The copy that [nextForecast] sorts

    [sort] reorders the array object it is called on.  Array objects are
    kept in a store by identity, so that the array held by the [forecast]
    state and the copy made by the spread are different objects. *)
Definition loc := positive.

(** [[...xs]]: a new array object with the elements of [xs]. *)
Definition spread (xs : list value) (σ : gmap loc (list value))
    : gmap loc (list value) * loc :=
  let l := fresh (dom σ) in (<[l := xs]> σ, l).

(** [a.sort(comparefn)]: the array object [a] is reordered in place and
    returned.  When a comparator call throws, the order reached is the
    engine's; the model keeps the elements as they were. *)
Definition sort_in_place (comparefn : value -> value -> option number)
    (a : loc) (σ : gmap loc (list value)) : gmap loc (list value) * option loc :=
  match σ !! a with
  | Some xs =>
      match Array_sort comparefn xs with
      | Some s => (<[a := s]> σ, Some a)
      | None => (σ, None)
      end
  | None => (σ, None)
  end.

Section NextForecastInPlace.
Context {host : Host}.

(** Lines 92-95 on the array object [fcArr] of the bundle. *)
Definition nextForecast_of (fcArr : loc) (σ : gmap loc (list value))
    : gmap loc (list value) * option value :=
  match σ !! fcArr with
  | Some xs =>
      if (length xs =? 0)%nat then (σ, Some VNull)
      else
        let '(σ1, copy) := spread xs σ in
        match sort_in_place byDateRaw copy σ1 with
        | (σ2, Some sorted) => (σ2, Some (nth 0 (default [] (σ2 !! sorted)) VUndefined))
        | (σ2, None) => (σ2, None)
        end
  | None => (σ, None)
  end.

End NextForecastInPlace.

(** ** The rest of the dashboard view *)

(** What [fmtNum] returns: the dash, the text of
    [n.toLocaleString(undefined, { maximumFractionDigits: digits })], or
    its argument as it came. *)
Inductive display :=
  | Dash
  | Localized (n : number) (digits : value)
  | Raw (v : value).

(** What the chart card shows (lines 156-235). *)
Inductive ChartView :=
  | LoadingChart
  | Chart (data : list ChartPoint) (band : bool)
  | NoData.

(** Line 192: [logs.some((log) => log.type === 'forecast')]. *)
Definition hasForecast (logs : list ChartPoint) : bool :=
  existsb (λ log, match type log with Forecast => true | History => false end) logs.

(** Lines 156-235: the loading text, the chart with or without the
    forecast band, or the no-data text. *)
Definition chartCard (st : State) : ChartView :=
  if loading st then LoadingChart
  else if (0 <? length (logs st))%nat then Chart (logs st) (hasForecast (logs st))
  else NoData.

(** The texts of the summary card (lines 141-145). *)
Record Card := {
  hoursText : display;
  dateText : value;
  minText : display;
  maxText : display;
  confidenceNote : option number
}.

Section View.
Context {host : Host}.

(** Lines 82-87; [digits] is 0 when the argument is left out. *)
Definition fmtNum (v digits : value) : option display :=
  let digits := if is_undefined digits then VNumber zero else digits in
  match v with
  | VNull | VUndefined => Some Dash
  | VNumber n => Some (Localized n digits)
  | _ => n ← Number v; Some (if is_nan n then Raw v else Localized n digits)
  end.

(** Lines 139-149: the summary card, [Some None] for "No forecast
    available". *)
Definition summaryCard (forecast : value) : option (option Card) :=
  p ← nextForecast forecast;
  if ToBoolean p then
    h ← Get p "hours";
    hText ← fmtNum h (VNumber (of_Z 1));
    d ← Get p "date";
    r ← Get p "range";
    lo ← fmtNum (coalesce (GetOpt r "min") h) (VNumber (of_Z 1));
    hi ← fmtNum (coalesce (GetOpt r "max") h) (VNumber (of_Z 1));
    c ← confidencePercent forecast;
    Some (Some {| hoursText := hText; dateText := formatDate d;
                  minText := lo; maxText := hi; confidenceNote := c |})
  else Some None.

End View.

(** ** Login.js (from line 244 of the source file)

    The characters of a string stand for its UTF-16 code units, so
    [String.length] is [length] and the white space [trim] removes is
    the white space among the code units below 256. *)
Module Login.

Record Form := {
  isLogin : bool;
  email : value;
  password : value;
  hobby_top1 : value;
  club_top1 : value;
  reads_books : value;
  error : value;
  loading : bool
}.

(** Lines 250-257: the [useState] initial values. *)
Definition initialForm : Form :=
  {| isLogin := true; email := VString ""; password := VString "";
     hobby_top1 := VString "general"; club_top1 := VString "general";
     reads_books := VBool false; error := VString ""; loading := false |}.

Definition MIN_PASSWORD_LENGTH : number := of_Z 8.

Definition emailMessage : value := VString "Please provide a valid email address.".
Definition passwordMessage : value := VString "Password must be at least 8 characters.".
Definition noTokenMessage : value := VString "Authentication failed: no token received.".
Definition noServerMessage : value :=
  VString "Cannot connect to server. Make sure the backend is running and reachable.".

(** The character [@]. *)
Definition at_sign : Ascii.ascii := Ascii.ascii_of_nat 64.

(** [s.includes(sub)]: [sub] starts at some position of [s]. *)
Fixpoint includes (s sub : string) : bool :=
  String.prefix sub s ||
  match s with
  | EmptyString => false
  | String _ s' => includes s' sub
  end.

(** White space and line terminators below 256: TAB, LF, VT, FF, CR,
    space and the no-break space. *)
Definition is_space (c : Ascii.ascii) : bool :=
  let n := Ascii.nat_of_ascii c in
  ((9 <=? n) && (n <=? 13) || (n =? 32) || (n =? 160))%nat.

Fixpoint trimStart (s : string) : string :=
  match s with
  | EmptyString => EmptyString
  | String c s' => if is_space c then trimStart s' else s
  end.

Fixpoint trimEnd (s : string) : string :=
  match s with
  | EmptyString => EmptyString
  | String c s' =>
      match trimEnd s' with
      | EmptyString => if is_space c then EmptyString else String c EmptyString
      | t => String c t
      end
  end.

(** [s.trim()] *)
Definition trim (s : string) : string := trimEnd (trimStart s).

(** [v.length]; the access throws on [undefined] and [null]. *)
Definition Get_length (v : value) : option value :=
  match v with
  | VUndefined | VNull => None
  | VString s => Some (VNumber (of_Z (Z.of_nat (String.length s))))
  | VArray xs => Some (VNumber (of_Z (Z.of_nat (length xs))))
  | VObject props => Some (own_property "length" props)
  | _ => Some VUndefined
  end.

(** [a || b] on values *)
Definition or_value (a b : value) : value := if ToBoolean a then a else b.

(** The object [new Error(message)], as the handler reads it. *)
Definition Error (message : value) : value := VObject [("message", message)].

(** What [handleSubmit] does to the outside: a request to the API
    client, a call of [onLogin]. *)
Inductive request :=
  | LoginRequest (email password : value)
  | RegisterRequest (payload : value).

Inductive event :=
  | Called (r : request)
  | OnLogin (token user : value).

(** Statements that update the form and the trace and may throw a
    value. *)
Definition Act (A : Type) : Type := Form * list event -> (Form * list event) * (A + value).

#[local] Instance Act_ret : MRet Act := λ A a w, (w, inl a).
#[local] Instance Act_bind : MBind Act := λ A B k m w,
  match m w with
  | (w', inl a) => k a w'
  | (w', inr err) => (w', inr err)
  end.

Definition throw {A : Type} (err : value) : Act A := λ w, (w, inr err).

Definition emit (e : event) : Act unit := λ w, ((w.1, w.2 ++ [e]), inl tt).

Definition setError (v : value) : Act unit := λ w,
  (({| isLogin := isLogin w.1; email := email w.1; password := password w.1;
       hobby_top1 := hobby_top1 w.1; club_top1 := club_top1 w.1;
       reads_books := reads_books w.1; error := v; loading := loading w.1 |}, w.2),
   inl tt).

Definition setLoading (b : bool) : Act unit := λ w,
  (({| isLogin := isLogin w.1; email := email w.1; password := password w.1;
       hobby_top1 := hobby_top1 w.1; club_top1 := club_top1 w.1;
       reads_books := reads_books w.1; error := error w.1; loading := b |}, w.2),
   inl tt).

(** [try { body } catch (err) { handler(err) } finally { fin }] where
    neither the handler nor [fin] throws. *)
Definition try_catch_finally (body : Act unit) (handler : value -> Act unit)
    (fin : Act unit) : Act unit := λ w,
  match body w with
  | (w', inl _) => fin w'
  | (w', inr err) => (handler err ≫= λ _, fin) w'
  end.

Section Handlers.
Context {host : Host}.

(** The API client, the [onLogin] callback ([Some err] when it throws
    [err]) and the TypeError of the engine for a call of a method that
    is missing. *)
Context (api : request -> settled) (onLogin : value -> value -> option value)
  (TypeError : value).

(** [a < k] for a number [k]. *)
Definition less_than (a : value) (k : number) : option bool :=
  n ← Number a; Some (SFltb n k).

(** Lines 261-269. *)
Definition clientValidate (email password : value) : option value :=
  let bad_email :=
    negb (ToBoolean email) ||
    match email with
    | VString s => negb (includes s "@")
    | _ => true
    end in
  if bad_email then Some emailMessage
  else if negb (ToBoolean password) then Some passwordMessage
  else
    len ← Get_length password;
    short ← less_than len MIN_PASSWORD_LENGTH;
    Some (if short : bool then passwordMessage else VNull).

(** [email.trim()] *)
Definition trimmed (email : value) : Act value :=
  match email with
  | VString s => mret (VString (trim s))
  | _ => throw TypeError
  end.

(** [await authAPI.login(...)], [await authAPI.register(...)] *)
Definition await (r : request) : Act value :=
  _ ← emit (Called r);
  match api r with
  | Fulfilled res => mret res
  | Rejected err => throw err
  end.

(** Lines 283-308, the [try] block. *)
Definition submit_try (st : Form) : Act unit :=
  response ←
    (if isLogin st then
       e ← trimmed (email st);
       await (LoginRequest e (password st))
     else
       e ← trimmed (email st);
       await (RegisterRequest (VObject
         [("email", e); ("password", password st);
          ("hobby_top1", hobby_top1 st); ("club_top1", club_top1 st);
          ("reads_books", VBool (ToBoolean (reads_books st)))])));
  let data := GetOpt response "data" in
  let token := GetOpt data "token" in
  let userId := coalesce (GetOpt data "userId") (GetOpt data "id") in
  userEmail ←
    (if nullish (GetOpt data "email") then trimmed (email st)
     else mret (GetOpt data "email"));
  if negb (ToBoolean token) then throw (Error noTokenMessage)
  else
    _ ← emit (OnLogin token (VObject [("userId", userId); ("email", userEmail)]));
    match onLogin token (VObject [("userId", userId); ("email", userEmail)]) with
    | None => mret tt
    | Some err => throw err
    end.

(** Lines 309-318, the [catch] block. *)
Definition submit_catch (err : value) : Act unit :=
  let serverMsg :=
    or_value (or_value (GetOpt (GetOpt (GetOpt err "response") "data") "error")
                       (GetOpt (GetOpt (GetOpt err "response") "data") "message"))
             (GetOpt err "message") in
  setError (or_value serverMsg noServerMessage).

(** Lines 271-322.  The form and the trace when the handler
    ends, and whether it ended by an exception of its own. *)
Definition handleSubmit (st : Form) : (Form * list event) * (unit + value) :=
  (_ ← setError (VString "");
   match clientValidate (email st) (password st) with
   | None => throw (A := unit) TypeError
   | Some clientErr =>
       if ToBoolean clientErr then setError clientErr
       else
         _ ← setLoading true;
         try_catch_finally (submit_try st) submit_catch (setLoading false)
   end) (st, []).

(** The request a valid form sends, for the email of the form trimmed
    to [e]. *)
Definition request_of (st : Form) (e : string) : request :=
  if isLogin st then LoginRequest (VString e) (password st)
  else RegisterRequest (VObject
    [("email", VString e); ("password", password st);
     ("hobby_top1", hobby_top1 st); ("club_top1", club_top1 st);
     ("reads_books", VBool (ToBoolean (reads_books st)))]).

(** The text the [catch] block shows for the exception [err]. *)
Definition shown_error (err : value) : value :=
  or_value
    (or_value (or_value (GetOpt (GetOpt (GetOpt err "response") "data") "error")
                        (GetOpt (GetOpt (GetOpt err "response") "data") "message"))
              (GetOpt err "message"))
    noServerMessage.

(** The user [onLogin] receives for the response [res], for the email
    of the form trimmed to [e]. *)
Definition user_of (res : value) (e : string) : value :=
  VObject
    [("userId", coalesce (GetOpt (GetOpt res "data") "userId")
                         (GetOpt (GetOpt res "data") "id"));
     ("email", if nullish (GetOpt (GetOpt res "data") "email") then VString e
               else GetOpt (GetOpt res "data") "email")].

(** The form when a submit that passed the validation ends. *)
Definition settled_form (st : Form) (err : value) : Form :=
  {| isLogin := isLogin st; email := email st; password := password st;
     hobby_top1 := hobby_top1 st; club_top1 := club_top1 st;
     reads_books := reads_books st; error := err; loading := false |}.

End Handlers.

Definition is_Called (e : event) : Prop :=
  match e with Called _ => True | OnLogin _ _ => False end.

End Login.

(** ** An engine to run the definitions

    It reads a string of decimal digits, the empty string and
    ["Infinity"] as numbers, parses the date-only form [YYYY-MM-DD] (UTC
    midnight, as ECMAScript prescribes) and formats dates in UTC.  On
    other strings it answers NaN or an invalid date, which an engine does
    for strings that are no numeric literal or no date; arrays are joined
    without rendering numbers inside them. *)

Definition digit (a : Ascii.ascii) : option Z :=
  let n := Z.of_N (Ascii.N_of_ascii a) in
  if (48 <=? n) && (n <=? 57) then Some (n - 48) else None.

Fixpoint digits_from (acc : Z) (s : string) : option Z :=
  match s with
  | EmptyString => Some acc
  | String a s' => d ← digit a; digits_from (10 * acc + d) s'
  end.

Definition digits (s : string) : option Z :=
  match s with
  | EmptyString => None
  | _ => digits_from 0 s
  end.

Definition example_StringToNumber (s : string) : number :=
  if String.eqb s "" then zero
  else if String.eqb s "Infinity" then infinity
  else match digits s with Some z => of_Z z | None => nan end.

Definition leap (y : Z) : bool :=
  ((y mod 4 =? 0) && negb (y mod 100 =? 0)) || (y mod 400 =? 0).

Definition DaysInMonth (y m : Z) : Z :=
  if m =? 2 then (if leap y then 29 else 28)
  else if (m =? 4) || (m =? 6) || (m =? 9) || (m =? 11) then 30 else 31.

(** Days from 1970-01-01 to the given civil date. *)
Definition MakeDay (y m d : Z) : Z :=
  let y' := if m <=? 2 then y - 1 else y in
  let era := y' / 400 in
  let yoe := y' - era * 400 in
  let doy := (153 * (if 2 <? m then m - 3 else m + 9) + 2) / 5 + d - 1 in
  let doe := yoe * 365 + yoe / 4 - yoe / 100 + doy in
  era * 146097 + doe - 719468.

Definition msPerDay : Z := 86400000.

Definition example_Date_parse (s : string) : option Z :=
  if (String.length s =? 10)%nat
     && String.eqb (substring 4 1 s) "-" && String.eqb (substring 7 1 s) "-"
  then
    y ← digits (substring 0 4 s);
    m ← digits (substring 5 2 s);
    d ← digits (substring 8 2 s);
    if (1 <=? m) && (m <=? 12) && (1 <=? d) && (d <=? DaysInMonth y m)
    then Some (MakeDay y m d * msPerDay) else None
  else None.

Definition month_name (m : Z) : string :=
  nth (Z.to_nat (m - 1))
    ["Jan"; "Feb"; "Mar"; "Apr"; "May"; "Jun"; "Jul"; "Aug"; "Sep"; "Oct"; "Nov"; "Dec"] "".

Definition example_toLocaleDateString (t : Z) : string :=
  let z := t / msPerDay + 719468 in
  let era := z / 146097 in
  let doe := z - era * 146097 in
  let yoe := (doe - doe / 1460 + doe / 36524 - doe / 146096) / 365 in
  let doy := doe - (365 * yoe + yoe / 4 - yoe / 100) in
  let mp := (5 * doy + 2) / 153 in
  let d := doy - (153 * mp + 2) / 5 + 1 in
  let m := if mp <? 10 then mp + 3 else mp - 9 in
  (month_name m ++ " " ++ pretty d)%string.

Definition example_element_string (v : value) : string :=
  match v with
  | VString s => s
  | VBool true => "true"
  | VBool false => "false"
  | VUndefined | VNull | VArray _ => ""
  | VNumber _ | VObject _ => "[object Object]"
  end.

Definition has_own (k : string) (props : list (string * value)) : bool :=
  existsb (λ kv, String.eqb k (fst kv)) props.

Definition example_OrdinaryToString (v : value) : option string :=
  match v with
  | VObject props => if has_own "toString" props then None else Some "[object Object]"
  | VArray xs => Some (String.concat "," (map example_element_string xs))
  | _ => None
  end.

#[export] Instance exampleHost : Host := {|
  StringToNumber := example_StringToNumber;
  OrdinaryToString := example_OrdinaryToString;
  Date_parse := example_Date_parse;
  toLocaleDateString := example_toLocaleDateString
|}.

(** ** The sort of the V8 engine

    When the comparator is not consistent ECMAScript leaves the order of
    the result to the engine.  V8 (array-sort.tq) treats an array of
    fewer than 64 elements as one run: [CountAndMakeRun] takes the
    longest prefix that is non-descending or strictly descending and
    reverses it when it is descending, then [BinaryInsertionSort] puts
    each further element at the place a binary search finds in the part
    before it.  The work array is a list; the comparator's result goes
    through [SortCompare]. *)
Section EngineSort.
Context {A : Type} (comparefn : A -> A -> option number).

(** The loop of [CountAndMakeRun]: how many elements of [l] extend the
    run that ends in [previousElement]. *)
Fixpoint extend_run (isDescending : bool) (previousElement : A) (l : list A)
    : option nat :=
  match l with
  | [] => Some 0%nat
  | currentElement :: l' =>
      order ← SortCompare comparefn currentElement previousElement;
      if (if isDescending then SFleb zero order else negative_number order)
      then Some 0%nat
      else n ← extend_run isDescending currentElement l'; Some (S n)
  end.

(** The length of the run and the work array afterwards. *)
Definition CountAndMakeRun (workArray : list A) : option (nat * list A) :=
  match workArray with
  | elementHigh :: elementLow :: rest =>
      order ← SortCompare comparefn elementLow elementHigh;
      let isDescending := negative_number order in
      n ← extend_run isDescending elementLow rest;
      let runLength := (2 + n)%nat in
      Some (runLength,
            if isDescending
            then reverse (take runLength workArray) ++ drop runLength workArray
            else workArray)
  | _ => Some (length workArray, workArray)
  end.

(** The binary search of [BinaryInsertionSort]:
    [while (left < right) { mid = left + ((right - left) >> 1); ... }].
    The distance from [left] to [right] shrinks in every round, so
    [steps] rounds are enough when it starts at that distance; [mid] is
    an index of the array. *)
Fixpoint find_left (steps : nat) (pivot : A) (workArray : list A)
    (left right : nat) : option nat :=
  match steps with
  | O => Some left
  | S steps' =>
      if (left <? right)%nat then
        let mid := (left + Nat.div2 (right - left))%nat in
        y ← workArray !! mid;
        order ← SortCompare comparefn pivot y;
        if negative_number order then find_left steps' pivot workArray left mid
        else find_left steps' pivot workArray (S mid) right
      else Some left
  end.

(** [sorted] is the part of the work array before [start], [rest] the
    part from [start] on. *)
Fixpoint BinaryInsertionSort (sorted rest : list A) : option (list A) :=
  match rest with
  | [] => Some sorted
  | pivot :: rest' =>
      left ← find_left (length sorted) pivot sorted 0 (length sorted);
      BinaryInsertionSort (take left sorted ++ pivot :: drop left sorted) rest'
  end.

Definition ArrayTimSort (workArray : list A) : option (list A) :=
  if (length workArray <? 2)%nat then Some workArray
  else
    '(runLength, workArray') ← CountAndMakeRun workArray;
    BinaryInsertionSort (take runLength workArray') (drop runLength workArray').

End EngineSort.

(** ** Example data *)

Definition num (z : Z) : value := VNumber (of_Z z).

Definition entry (d : string) (duration : value) : value :=
  VObject [("date", VString d); ("duration", duration)].

Definition point (d : string) (h : value) : value :=
  VObject [("date", VString d); ("hours", h)].

Definition ranged (d : string) (h mn mx : value) : value :=
  VObject [("date", VString d); ("hours", h);
           ("range", VObject [("min", mn); ("max", mx)])].

Definition response (data : value) : value := VObject [("data", data)].

(** The number 0.8. *)
Definition eight_tenths : number := S754_finite false 7205759403792794 (-53).

(** An entry whose duration is the number Infinity, as [JSON.parse] reads
    the literal [1e999]. *)
Definition infinite_entry : value := entry "2024-01-01" (VNumber infinity).

(** A forecast point whose lower bound is 0. *)
Definition zero_min_point : value := ranged "2024-03-05" (num 3) (num 0) (num 4).

(** The bundle of the spec's scenario, and the same with confidence 0. *)
Definition bundle_80 : value :=
  VObject [("forecast", VArray [ranged "2024-01-02" (num 3) (num 2) (num 4)]);
           ("confidence", VNumber eight_tenths)].

Definition bundle_0 : value :=
  VObject [("forecast", VArray [ranged "2024-01-02" (num 3) (num 2) (num 4)]);
           ("confidence", num 0)].

(** Two points out of order, from the spec's example. *)
Definition unordered : list value :=
  [point "2024-03-05" (num 3); point "2024-03-01" (num 2)].

Definition stats_5 : value :=
  VObject [("totalHours", num 5); ("avgPerDay", num 1); ("entries", num 5)].

Definition one_log : value := VArray [entry "2024-01-01" (VString "2")].

(** A history point and a forecast point on the same day. *)
Definition same_day_logs : value := VArray [entry "2024-01-02" (num 1)].
Definition same_day_bundle : value :=
  VObject [("forecast", VArray [point "2024-01-02" (num 3); point "2024-01-01" (num 2)])].

(** Five logs, the fourth with a date that does not parse and the fifth
    dated before the third, and a forecast that starts inside the days
    logged. *)
Definition late_logs : value :=
  VArray [entry "2024-01-01" (num 1); entry "2024-01-02" (num 1);
          entry "2024-01-04" (num 1); entry "not a date" (num 1);
          entry "2024-01-03" (num 1)].
Definition overlapping_bundle : value :=
  VObject [("forecast", VArray [point "2024-01-02" (num 2); point "2024-01-03" (num 2)])].

(** The chart points of these logs and of this forecast. *)
Definition logged (d : string) : ChartPoint :=
  {| date := VString d; hours := of_Z 1; min := of_Z 1; max := of_Z 1;
     type := History |}.
Definition predicted (d : string) : ChartPoint :=
  {| date := VString d; hours := of_Z 2; min := of_Z 2; max := of_Z 2;
     type := Forecast |}.

(** The series of the spec's scenario. *)
Definition history_2 : ChartPoint :=
  {| date := VString "2024-01-01"; hours := of_Z 2; min := of_Z 2; max := of_Z 2;
     type := History |}.
Definition forecast_3 : ChartPoint :=
  {| date := VString "2024-01-02"; hours := of_Z 3; min := of_Z 2; max := of_Z 4;
     type := Forecast |}.

(** The summary card of the scenario. *)
Definition card_80 : Card :=
  {| hoursText := Localized (of_Z 3) (num 1); dateText := VString "Jan 2";
     minText := Localized (of_Z 2) (num 1); maxText := Localized (of_Z 4) (num 1);
     confidenceNote := Some (of_Z 80) |}.

(** A login form with spaces around the email, an API client that
    accepts a login and refuses a registration, one that answers without
    a token, and an [onLogin] that returns. *)
Definition ada_form : Login.Form :=
  {| Login.isLogin := true; Login.email := VString " ada@example.org ";
     Login.password := VString "correct horse";
     Login.hobby_top1 := VString "general"; Login.club_top1 := VString "general";
     Login.reads_books := VBool false; Login.error := VString "";
     Login.loading := false |}.

Definition short_form : Login.Form :=
  {| Login.isLogin := true; Login.email := VString "ada@example.org";
     Login.password := VString "short";
     Login.hobby_top1 := VString "general"; Login.club_top1 := VString "general";
     Login.reads_books := VBool false; Login.error := VString "";
     Login.loading := false |}.

Definition token_response : value :=
  response (VObject [("token", VString "t0"); ("userId", num 7)]).

Definition accepting_api (r : Login.request) : settled :=
  match r with
  | Login.LoginRequest _ _ => Fulfilled token_response
  | Login.RegisterRequest _ =>
      Rejected (VObject [("response", response (VObject [("error", VString "Email taken")]))])
  end.

Definition tokenless_api (r : Login.request) : settled := Fulfilled (response (VObject [])).

Definition returning_onLogin (token user : value) : option value := None.

(** ** Notions used in the statements *)

(** A non-zero number of sign [s] ([true] for negative). *)
Definition signed (s : bool) (x : number) : Prop :=
  match x with
  | S754_finite s' _ _ | S754_infinity s' => s' = s
  | _ => False
  end.

Section Instants.
Context {host : Host}.

(** The calendar instant a date value parses to: the time value of
    [new Date(d)] when the constructor returns a valid date. *)
Definition instant (d : value) : option Z := t ← newDate d; t.

(** The instant of a raw forecast point, read from its [date]. *)
Definition rawInstant (x : value) : option Z := Get x "date" ≫= instant.

(** [p] is dated no later than [q]. *)
Definition no_later (p q : ChartPoint) : Prop :=
  exists s t, instant (date p) = Some s /\ instant (date q) = Some t /\ s <= t.

End Instants.

#[export] Instance kind_eq_dec : EqDecision kind.
Proof. solve_decision. Defined.

(** A value that is no array and no object. *)
Definition is_primitive (v : value) : Prop :=
  match v with VArray _ | VObject _ => False | _ => True end.

(** The value the summary card formats for a bound of the point [f]
    (line 143): [f.range?.min ?? f.hours], and the same for [max]. *)
Definition cardBound (f : value) (k : string) : value :=
  coalesce (GetOpt (GetOpt f "range") k) (GetOpt f "hours").

Definition is_rejected (r : settled) : Prop :=
  match r with Rejected _ => True | Fulfilled _ => False end.

(** * Properties *)

(** ** The sign of a difference of time values

    The comparator subtracts two time values as binary64 numbers.  The
    difference may be rounded, but never to zero and never across zero:
    its sign is the sign of the exact difference. *)
Section BinaryFacts.

Lemma signed_positive s x : signed s x -> positive_number x = negb s.
Proof.
  destruct x as [?|s'| |s' ? ?]; simpl; intros Hs; try contradiction;
    subst s'; destruct s; reflexivity.
Qed.

Lemma signed_not_nan s x : signed s x -> is_nan x = false.
Proof. destruct x; simpl; intros; reflexivity || contradiction. Qed.

Lemma digits2_pos_size p : digits2_pos p = Pos.size p.
Proof. induction p; simpl; congruence. Qed.

Lemma digits2_pos_bounds p :
  2 ^ (Zpos (digits2_pos p) - 1) <= Zpos p < 2 ^ Zpos (digits2_pos p).
Proof.
  rewrite digits2_pos_size. split.
  - pose proof (Pos.size_le p) as Hle.
    apply Pos2Z.pos_le_pos in Hle. rewrite Pos2Z.inj_pow in Hle.
    replace (Zpos (Pos.size p)) with (Z.succ (Zpos (Pos.size p) - 1)) in Hle by lia.
    rewrite Z.pow_succ_r in Hle by lia. lia.
  - pose proof (Pos.size_gt p) as Hgt.
    apply Pos2Z.pos_lt_pos in Hgt. rewrite Pos2Z.inj_pow in Hgt. exact Hgt.
Qed.

Lemma Zdigits2_pos z : 0 < z -> 1 <= Zdigits2 z.
Proof. destruct z; simpl; lia. Qed.

Lemma shr_1_div2 mrs : 0 <= shr_m mrs -> shr_m (shr_1 mrs) = shr_m mrs / 2.
Proof.
  destruct mrs as [m r s]. simpl. intros Hm.
  destruct m as [|[p|p|]|p]; simpl; try lia.
  - reflexivity.
  - apply Z.div_unique with (r := 1); lia.
  - apply Z.div_unique with (r := 0); lia.
  - reflexivity.
Qed.

Lemma iter_shr_1 p : forall mrs,
  0 <= shr_m mrs -> shr_m (SpecFloat.iter_pos shr_1 p mrs) = shr_m mrs / 2 ^ Zpos p.
Proof.
  assert (Hstep : forall q : positive, forall mrs,
    (forall mrs', 0 <= shr_m mrs' -> shr_m (SpecFloat.iter_pos shr_1 q mrs') = shr_m mrs' / 2 ^ Zpos q) ->
    0 <= shr_m mrs ->
    shr_m (SpecFloat.iter_pos shr_1 q (SpecFloat.iter_pos shr_1 q mrs)) = shr_m mrs / 2 ^ Zpos (q~0)).
  { intros q mrs IH Hm.
    rewrite IH, IH by (try rewrite IH by lia; try apply Z.div_pos; lia).
    rewrite Z.div_div by lia.
    rewrite <- Z.pow_add_r by lia. f_equal. f_equal. lia. }
  induction p as [p IH|p IH|]; intros mrs Hm; simpl.
  - rewrite Hstep; [|exact IH|rewrite shr_1_div2 by lia; apply Z.div_pos; lia].
    rewrite shr_1_div2 by lia. rewrite Z.div_div by lia.
    replace (Zpos p~1) with (Z.succ (Zpos p~0)) by lia.
    rewrite Z.pow_succ_r by lia. reflexivity.
  - apply Hstep; assumption.
  - rewrite shr_1_div2 by lia. reflexivity.
Qed.

Lemma fexp_ge e : -1074 <= fexp prec emax e.
Proof. unfold fexp, emin, prec, emax. lia. Qed.

(** A first shift of an exact positive mantissa above the subnormal range
    leaves a positive mantissa; either nothing was shifted, or the new
    exponent is the one [fexp] asks for. *)
Lemma shr_fexp_exact m e :
  0 < m -> -1074 < Zdigits2 m + e ->
  exists m' r s e',
    shr_fexp prec emax m e loc_Exact = (Build_shr_record m' r s, e') /\
    0 < m' /\
    ((r = false /\ s = false /\ m' = m /\ e' = e) \/ -1074 <= e').
Proof.
  intros Hm Hd. unfold shr_fexp, shr. simpl shr_record_of_loc.
  destruct (fexp prec emax (Zdigits2 m + e) - e) as [|p|p] eqn:Hn.
  - exists m, false, false, e. split; [reflexivity|split; [exact Hm|left; auto]].
  - destruct (SpecFloat.iter_pos shr_1 p (Build_shr_record m false false))
      as [m' r s] eqn:Hit.
    exists m', r, s, (e + Zpos p). split; [reflexivity|].
    assert (Hm' : m' = m / 2 ^ Zpos p).
    { change m' with (shr_m (Build_shr_record m' r s)). rewrite <- Hit.
      rewrite iter_shr_1 by (simpl; lia). reflexivity. }
    split.
    + subst m'. apply Z.div_str_pos. split; [lia|].
      destruct m as [|q|q]; try lia. simpl in Hd, Hn.
      pose proof (digits2_pos_bounds q) as [Hlo _].
      apply Z.le_trans with (2 ^ (Zpos (digits2_pos q) - 1)); [|exact Hlo].
      apply Z.pow_le_mono_r; [lia|].
      unfold fexp, emin, prec, emax in Hn. lia.
    + right. pose proof (fexp_ge (Zdigits2 m + e)). lia.
  - exists m, false, false, e. split; [reflexivity|split; [exact Hm|left; auto]].
Qed.

Lemma round_nearest_even_ge m l : m <= round_nearest_even m l.
Proof. destruct l as [|[]]; simpl; try lia. destruct (Z.even m); lia. Qed.

(** Rounding an exact positive mantissa above the subnormal range gives a
    non-zero number of the same sign. *)
Lemma binary_round_aux_signed sx m e :
  -1074 < Zdigits2 (Zpos m) + e ->
  signed sx (binary_round_aux prec emax sx (Zpos m) e loc_Exact).
Proof.
  intros Hd. unfold binary_round_aux.
  destruct (shr_fexp_exact (Zpos m) e) as (m1 & r1 & s1 & e1 & -> & Hm1 & Hcase);
    [lia|exact Hd|].
  set (m2 := round_nearest_even _ _).
  assert (Hm2 : 0 < m2).
  { pose proof (round_nearest_even_ge m1 (loc_of_shr_record (Build_shr_record m1 r1 s1))).
    subst m2. simpl shr_m. lia. }
  assert (Hd2 : -1074 < Zdigits2 m2 + e1).
  { destruct Hcase as [(-> & -> & -> & ->)|He1].
    - subst m2. simpl. exact Hd.
    - pose proof (Zdigits2_pos m2 Hm2). lia. }
  destruct (shr_fexp_exact m2 e1 Hm2 Hd2) as (m3 & r3 & s3 & e3 & -> & Hm3 & _).
  simpl shr_m. destruct m3 as [|q|q]; try lia.
  destruct (e3 <=? emax - prec); reflexivity.
Qed.

Lemma Pos_iter_xO m d : Zpos (Pos.iter xO m d) = Zpos m * 2 ^ Zpos d.
Proof.
  induction d as [|d IH] using Pos.peano_ind.
  - simpl. lia.
  - rewrite Pos.iter_succ, Pos2Z.inj_xO, IH, Pos2Z.inj_succ, Z.pow_succ_r by lia. lia.
Qed.

Lemma digits2_pos_iter_xO m d :
  Zpos (digits2_pos (Pos.iter xO m d)) = Zpos (digits2_pos m) + Zpos d.
Proof.
  induction d as [|d IH] using Pos.peano_ind.
  - simpl. lia.
  - rewrite Pos.iter_succ. simpl digits2_pos. rewrite Pos2Z.inj_succ, IH. lia.
Qed.

Lemma shl_align_value m e e' :
  e' <= e -> Zpos (fst (shl_align m e e')) = Zpos m * 2 ^ (e - e').
Proof.
  intros Hle. unfold shl_align.
  destruct (e' - e) as [|d|d] eqn:Hd; simpl fst.
  - replace (e - e') with 0 by lia. lia.
  - lia.
  - rewrite Pos_iter_xO. f_equal. f_equal. lia.
Qed.

Lemma shl_align_digits m e e' :
  Zdigits2 (Zpos (fst (shl_align m e e'))) + snd (shl_align m e e') =
  Zdigits2 (Zpos m) + e.
Proof.
  unfold shl_align. destruct (e' - e) as [|d|d] eqn:Hd; simpl; try reflexivity.
  rewrite digits2_pos_iter_xO. lia.
Qed.

Lemma binary_round_signed sx m e :
  -1074 < Zdigits2 (Zpos m) + e -> signed sx (binary_round prec emax sx m e).
Proof.
  intros Hd. unfold binary_round.
  pose proof (shl_align_digits m e (fexp prec emax (Zpos (digits2_pos m) + e))) as Hal.
  destruct (shl_align m e _) as [mz ez]. simpl in Hal, Hd.
  apply binary_round_aux_signed. simpl. lia.
Qed.

Lemma binary_round_aux_canonical sx m e :
  Zpos (digits2_pos m) = 53 -> -1074 <= e <= 971 ->
  binary_round_aux prec emax sx (Zpos m) e loc_Exact = S754_finite sx m e.
Proof.
  intros Hd He.
  assert (Hshift : fexp prec emax (Zdigits2 (Zpos m) + e) - e = 0).
  { simpl. rewrite Hd. unfold fexp, emin, prec, emax. lia. }
  unfold binary_round_aux, shr_fexp. rewrite Hshift. simpl.
  rewrite Hd.
  replace (fexp prec emax (53 + e) - e) with 0
    by (unfold fexp, emin, prec, emax; lia).
  simpl. replace (e <=? emax - prec) with true; [reflexivity|].
  symmetry. apply Z.leb_le. unfold emax, prec. lia.
Qed.

(** The Number value of a non-zero integer below [2^53] is exact. *)
Lemma binary_round_exact sx p :
  Zpos p < 2 ^ 53 ->
  exists m e, binary_round prec emax sx p 0 = S754_finite sx m e /\
    -52 <= e <= 0 /\ Zpos m = Zpos p * 2 ^ (- e).
Proof.
  intros Hp. unfold binary_round.
  pose proof (digits2_pos_bounds p) as [Hlo Hhi].
  assert (Hd : 1 <= Zpos (digits2_pos p) <= 53).
  { split; [lia|].
    assert (Zpos (digits2_pos p) - 1 < 53); [|lia].
    apply (Z.pow_lt_mono_r_iff 2); lia. }
  replace (fexp prec emax (Zpos (digits2_pos p) + 0)) with (Zpos (digits2_pos p) - 53)
    by (unfold fexp, emin, prec, emax; lia).
  pose proof (shl_align_value p 0 (Zpos (digits2_pos p) - 53)) as Hval.
  pose proof (shl_align_digits p 0 (Zpos (digits2_pos p) - 53)) as Hdig.
  assert (Hez : snd (shl_align p 0 (Zpos (digits2_pos p) - 53)) = Zpos (digits2_pos p) - 53).
  { unfold shl_align. destruct (Zpos (digits2_pos p) - 53 - 0) eqn:E; simpl; lia. }
  destruct (shl_align p 0 _) as [mz ez]. simpl in Hval, Hdig, Hez. subst ez.
  exists mz, (Zpos (digits2_pos p) - 53).
  rewrite binary_round_aux_canonical by lia.
  split; [reflexivity|]. split; [lia|].
  rewrite Hval by lia. reflexivity.
Qed.

Lemma of_Z_0 : of_Z 0 = zero.
Proof. reflexivity. Qed.

Lemma of_Z_exact z :
  z <> 0 -> Z.abs z < 2 ^ 53 ->
  exists m e, of_Z z = S754_finite (z <? 0) m e /\
    -52 <= e <= 0 /\ cond_Zopp (z <? 0) (Zpos m) = z * 2 ^ (- e).
Proof.
  intros Hz Hb. unfold of_Z, binary_normalize.
  destruct z as [|p|p]; [contradiction| |].
  - destruct (binary_round_exact false p) as (m & e & -> & He & Hm); [lia|].
    exists m, e. simpl. auto.
  - destruct (binary_round_exact true p) as (m & e & -> & He & Hm); [lia|].
    exists m, e. simpl. split; [reflexivity|]. split; [exact He|]. lia.
Qed.

Lemma cond_Zopp_mul s a b : cond_Zopp s (a * b) = cond_Zopp s a * b.
Proof. destruct s; simpl; lia. Qed.

(** The difference of two finite numbers that stand for integers. *)
Lemma sub_finite_sign sa ma ea sb mb eb a b :
  -52 <= ea <= 0 -> -52 <= eb <= 0 ->
  cond_Zopp sa (Zpos ma) = a * 2 ^ (- ea) ->
  cond_Zopp sb (Zpos mb) = b * 2 ^ (- eb) ->
  let v := sub (S754_finite sa ma ea) (S754_finite sb mb eb) in
  (a = b -> v = zero) /\ (b < a -> signed false v) /\ (a < b -> signed true v).
Proof.
  intros Hea Heb Ha Hb. unfold sub, SFsub. cbv zeta.
  set (ez := Z.min ea eb).
  assert (Hdiff : cond_Zopp sa (Zpos (fst (shl_align ma ea ez)))
                  - cond_Zopp sb (Zpos (fst (shl_align mb eb ez)))
                  = (a - b) * 2 ^ (- ez)).
  { rewrite !shl_align_value by (subst ez; lia).
    rewrite !cond_Zopp_mul, Ha, Hb.
    rewrite <- !Z.mul_assoc, <- !Z.pow_add_r by (subst ez; lia).
    replace (- ea + (ea - ez)) with (- ez) by lia.
    replace (- eb + (eb - ez)) with (- ez) by lia. lia. }
  rewrite Hdiff.
  assert (Hpow : 0 < 2 ^ (- ez)) by (apply Z.pow_pos_nonneg; subst ez; lia).
  assert (Hez : -52 <= ez) by (subst ez; lia).
  unfold binary_normalize.
  destruct ((a - b) * 2 ^ (- ez)) as [|d|d] eqn:Hd.
  - split; [reflexivity|]. split; intros; exfalso; nia.
  - split; [intros; exfalso; nia|]. split; [|intros; exfalso; nia].
    intros _. apply binary_round_signed.
    pose proof (Zdigits2_pos (Zpos d)). lia.
  - split; [intros; exfalso; nia|]. split; [intros; exfalso; nia|].
    intros _. apply binary_round_signed.
    pose proof (Zdigits2_pos (Zpos d)). lia.
Qed.

(** What the comparator's subtraction tells [sort] about two time values
    in the range of [TimeClip]. *)
Lemma sub_of_Z_sign a b :
  Z.abs a <= 8640000000000000 -> Z.abs b <= 8640000000000000 ->
  let v := sub (of_Z a) (of_Z b) in
  is_nan v = false /\ positive_number v = (b <? a).
Proof.
  intros Ha Hb.
  assert (Hbig : 8640000000000000 < 2 ^ 53) by reflexivity.
  destruct (Z.eq_dec a 0) as [->|Ha0]; destruct (Z.eq_dec b 0) as [->|Hb0].
  - split; reflexivity.
  - destruct (of_Z_exact b) as (m & e & Hof & _ & _); [assumption|lia|].
    rewrite of_Z_0, Hof. simpl. split; [reflexivity|].
    destruct (b <? 0); reflexivity.
  - destruct (of_Z_exact a) as (m & e & Hof & _ & _); [assumption|lia|].
    rewrite of_Z_0, Hof. simpl. split; [reflexivity|].
    destruct (a <? 0) eqn:E; unfold positive_number; simpl.
    + symmetry. apply Z.ltb_ge. apply Z.ltb_lt in E. lia.
    + symmetry. apply Z.ltb_lt. apply Z.ltb_ge in E. lia.
  - destruct (of_Z_exact a) as (ma & ea & -> & Hea & Hma); [assumption|lia|].
    destruct (of_Z_exact b) as (mb & eb & -> & Heb & Hmb); [assumption|lia|].
    destruct (sub_finite_sign _ _ _ _ _ _ a b Hea Heb Hma Hmb) as (Heq & Hgt & Hlt).
    destruct (Z.lt_total a b) as [Hab|[Hab|Hab]].
    + specialize (Hlt Hab). split; [eapply signed_not_nan; eassumption|].
      rewrite (signed_positive _ _ Hlt). symmetry. apply Z.ltb_ge. lia.
    + rewrite (Heq Hab). split; [reflexivity|]. subst b. rewrite Z.ltb_irrefl. reflexivity.
    + specialize (Hgt Hab). split; [eapply signed_not_nan; eassumption|].
      rewrite (signed_positive _ _ Hgt). symmetry. apply Z.ltb_lt. lia.
Qed.

End BinaryFacts.

(** ** The sort *)

Section SortFacts.
Context {A : Type} (comparefn : A -> A -> option number).

Lemma insert_by_Permutation x l r : insert_by comparefn x l = Some r -> r ≡ₚ x :: l.
Proof.
  revert r. induction l as [|y l IH]; simpl; intros r Hr.
  - by simplify_eq.
  - unfold SortCompare in Hr. destruct (comparefn x y) as [v|]; simplify_eq/=.
    destruct (positive_number _); simplify_eq/=; [|done].
    destruct (insert_by comparefn x l) as [r'|] eqn:Hins; simplify_eq/=.
    rewrite (IH r' eq_refl). apply Permutation_swap.
Qed.

Lemma sort_Permutation l s : sort comparefn l = Some s -> s ≡ₚ l.
Proof.
  revert s. induction l as [|x l IH]; simpl; intros s Hs.
  - by simplify_eq.
  - destruct (sort comparefn l) as [s'|]; simplify_eq/=.
    rewrite (insert_by_Permutation _ _ _ Hs). by rewrite (IH s' eq_refl).
Qed.

Lemma sort_length l s : sort comparefn l = Some s -> length s = length l.
Proof. intros Hs. by rewrite (sort_Permutation _ _ Hs). Qed.

(** The sort returns when no comparator call throws. *)
Lemma insert_by_is_Some x l :
  Forall (λ y, is_Some (comparefn x y)) l -> is_Some (insert_by comparefn x l).
Proof.
  induction 1 as [|y l [v Hv] _ IH]; simpl; [done|].
  unfold SortCompare. rewrite Hv. simpl.
  destruct (positive_number _); [|done].
  destruct IH as [r ->]. done.
Qed.

Lemma sort_is_Some l :
  (forall x y, x ∈ l -> y ∈ l -> is_Some (comparefn x y)) -> is_Some (sort comparefn l).
Proof.
  induction l as [|x l IH]; simpl; intros Hall; [done|].
  destruct IH as [s Hs].
  { intros y z Hy Hz. apply Hall; by right. }
  rewrite Hs. simpl. apply insert_by_is_Some.
  apply Forall_forall. intros y Hy. apply Hall; [left|right].
  by rewrite <- (sort_Permutation _ _ Hs).
Qed.

(** With a comparator that subtracts keys, the sort is the stable
    ordering by key: the result is ordered, and the elements of any one
    key keep their order. *)
Context (key : A -> option Z).
Hypothesis comparefn_key : forall x y s t,
  key x = Some s -> key y = Some t ->
  exists v, comparefn x y = Some v /\ is_nan v = false /\ positive_number v = (t <? s).

Local Abbreviation tm x := (default 0 (key x)).
Local Abbreviation le_tm := (λ x y, tm x <= tm y).

Lemma insert_by_stable x l :
  is_Some (key x) -> Forall (λ y, is_Some (key y)) l -> StronglySorted le_tm l ->
  exists r, insert_by comparefn x l = Some r /\ StronglySorted le_tm r /\
    forall t, filter (λ y, tm y = t) r = filter (λ y, tm y = t) (x :: l).
Proof.
  intros [s Hs] Hl Hsorted. induction Hl as [|y l [t Ht] Hl IH]; simpl.
  - eexists. split; [done|]. split; [repeat constructor|done].
  - apply StronglySorted_inv in Hsorted as [Hsorted Hy].
    destruct (comparefn_key x y s t Hs Ht) as (v & Hv & Hnan & Hpos).
    unfold SortCompare. rewrite Hv. simpl. rewrite Hnan, Hpos.
    destruct (t <? s) eqn:Hts.
    + apply Z.ltb_lt in Hts.
      destruct (IH Hsorted) as (r & Hins & Hr & Hfilter). rewrite Hins. simpl.
      eexists. split; [done|]. split.
      * constructor; [done|].
        rewrite (insert_by_Permutation x l r Hins).
        constructor; [|done]. rewrite Hs, Ht. simpl. lia.
      * intros t0. rewrite !filter_cons, Hfilter, filter_cons.
        rewrite Hs, Ht. simpl.
        repeat case_decide; try done; lia.
    + apply Z.ltb_ge in Hts.
      eexists. split; [done|]. split; [|done].
      constructor; [by constructor|].
      constructor; [rewrite Hs, Ht; simpl; lia|].
      eapply Forall_impl; [exact Hy|]. simpl. intros z Hz.
      rewrite Hs. rewrite Ht in Hz. simpl in *. lia.
Qed.

Lemma sort_stable l :
  Forall (λ y, is_Some (key y)) l ->
  exists s, sort comparefn l = Some s /\ StronglySorted le_tm s /\
    forall t, filter (λ y, tm y = t) s = filter (λ y, tm y = t) l.
Proof.
  induction 1 as [|x l Hx Hl (s & Hs & Hsorted & Hfilter)]; simpl.
  - eexists. split; [done|]. split; [constructor|done].
  - rewrite Hs. simpl.
    destruct (insert_by_stable x s Hx) as (r & Hr & Hrs & Hrf); [|done|].
    { by rewrite (sort_Permutation l s Hs). }
    exists r. split; [done|]. split; [done|].
    intros t. rewrite Hrf, !filter_cons, Hfilter. done.
Qed.

End SortFacts.

Lemma StronglySorted_key {A : Type} (key : A -> option Z) (l : list A) :
  Forall (λ x, is_Some (key x)) l ->
  StronglySorted (λ x y, default 0 (key x) <= default 0 (key y)) l ->
  StronglySorted (λ x y, exists s t, key x = Some s /\ key y = Some t /\ s <= t) l.
Proof.
  induction 1 as [|x l [s Hs] Hl IH]; intros Hsorted; [constructor|].
  apply StronglySorted_inv in Hsorted as [Hsorted Hx].
  constructor; [by apply IH|].
  apply Forall_forall. intros y Hy.
  rewrite Forall_forall in Hl, Hx.
  destruct (Hl y Hy) as [t Ht]. specialize (Hx y Hy).
  rewrite Hs, Ht in Hx. simpl in Hx. by exists s, t.
Qed.

(** ** The comparators *)

Section Comparators.
Context {host : Host}.

Lemma TimeClip_bound tv t : TimeClip tv = Some t -> Z.abs t <= 8640000000000000.
Proof.
  destruct tv as [z|]; simpl; [|done].
  destruct (Z.abs z <=? 8640000000000000) eqn:Hz; intros; simplify_eq.
  by apply Z.leb_le.
Qed.

Lemma newDate_bound d t : newDate d = Some (Some t) -> Z.abs t <= 8640000000000000.
Proof.
  unfold newDate, Number. intros Hd.
  assert (exists tv, TimeClip tv = Some t) as [tv Htv]; [|by eapply TimeClip_bound].
  destruct d; simplify_option_eq; eauto.
  by exists (Some 0).
Qed.

Lemma instant_Some d t : instant d = Some t <-> newDate d = Some (Some t).
Proof.
  unfold instant. destruct (newDate d) as [[z|]|]; simpl; naive_solver.
Qed.

Lemma time_sub_key da db s t :
  newDate da = Some (Some s) -> newDate db = Some (Some t) ->
  let v := sub (time_number (Some s)) (time_number (Some t)) in
  is_nan v = false /\ positive_number v = (t <? s).
Proof.
  intros Hs Ht. apply sub_of_Z_sign; by eapply newDate_bound.
Qed.

Lemma byDate_key (a b : ChartPoint) s t :
  instant (date a) = Some s -> instant (date b) = Some t ->
  exists v, byDate a b = Some v /\ is_nan v = false /\ positive_number v = (t <? s).
Proof.
  rewrite !instant_Some. intros Hs Ht. unfold byDate. rewrite Hs, Ht. simpl.
  eexists. split; [done|]. by eapply time_sub_key.
Qed.

Lemma byDateRaw_key (a b : value) s t :
  rawInstant a = Some s -> rawInstant b = Some t ->
  exists v, byDateRaw a b = Some v /\ is_nan v = false /\ positive_number v = (t <? s).
Proof.
  unfold rawInstant, byDateRaw. intros Hs Ht.
  destruct (Get a "date") as [da|]; [|done].
  destruct (Get b "date") as [db|]; [|done]. simpl in *.
  apply instant_Some in Hs, Ht. rewrite Hs, Ht. simpl.
  eexists. split; [done|]. by eapply time_sub_key.
Qed.

(** The [Date] constructor accepts every primitive value. *)
Lemma newDate_primitive d :
  match d with VArray _ | VObject _ => False | _ => True end -> is_Some (newDate d).
Proof. destruct d; simpl; done. Qed.

End Comparators.

(** ** The merge *)

Section Merge.
Context {host : Host}.

Lemma merge_length H F out :
  merge H F = Some out -> length out = (length H + length F)%nat.
Proof. intros Hm. apply sort_length in Hm. by rewrite Hm, length_app. Qed.

(** C1.  The merge of history points [H] and forecast points [F] whose
    dates the [Date] constructor accepts (any string does) returns a
    rearrangement of [H ++ F], so a sequence of length [|H| + |F|] with
    no point dropped or merged; when every date parses to a valid
    instant, each point of that sequence is dated no later than every
    point after it. *)
Theorem merge_length_sorted (H F : list ChartPoint) :
  Forall (λ p, is_Some (newDate (date p))) (H ++ F) ->
  exists out, merge H F = Some out /\
    out ≡ₚ H ++ F /\
    length out = (length H + length F)%nat /\
    (Forall (λ p, is_Some (instant (date p))) (H ++ F) -> StronglySorted no_later out).
Proof.
  intros Hdated.
  destruct (sort_is_Some byDate (H ++ F)) as [out Hout].
  { intros x y Hx Hy. rewrite Forall_forall in Hdated.
    destruct (Hdated x Hx) as [dx Hdx], (Hdated y Hy) as [dy Hdy].
    unfold byDate. rewrite Hdx, Hdy. done. }
  exists out. split; [exact Hout|]. split; [by eapply sort_Permutation|].
  split; [by apply merge_length|].
  intros Hvalid.
  destruct (sort_stable byDate (λ p, instant (date p)) byDate_key (H ++ F) Hvalid)
    as (s & Hs & Hsorted & _).
  unfold merge in Hout. rewrite Hs in Hout. simplify_eq.
  apply (StronglySorted_key (λ p, instant (date p))); [|done].
  by rewrite (sort_Permutation _ _ _ Hs).
Qed.

End Merge.

(** ** The normaliser *)

Section Normaliser.
Context {host : Host}.

Lemma or_number_zero_not_nan n : is_nan (or_number n zero) = false.
Proof. by destruct n. Qed.

Lemma truthy_not_nan n : truthy n = true -> is_nan n = false.
Proof. by destruct n. Qed.

Lemma Number_or_0_not_nan e n : Number_or_0 e = Some n -> is_nan n = false.
Proof.
  unfold Number_or_0. intros He.
  apply bind_Some in He as (v & _ & He). apply bind_Some in He as (m & _ & He).
  simplify_eq. apply or_number_zero_not_nan.
Qed.

Lemma Number_or_hours_not_nan e f n : Number_or_hours e f = Some n -> is_nan n = false.
Proof.
  unfold Number_or_hours. intros He.
  apply bind_Some in He as (v & _ & He). apply bind_Some in He as (m & _ & He).
  destruct (truthy m) eqn:Hm.
  - simplify_eq. by apply truthy_not_nan.
  - by eapply Number_or_0_not_nan.
Qed.

Lemma historyPoint_spec log p :
  historyPoint log = Some p ->
  type p = History /\ is_nan (hours p) = false /\ min p = hours p /\ max p = hours p.
Proof.
  unfold historyPoint. intros Hp.
  apply bind_Some in Hp as (d & _ & Hp).
  destruct (Number_or_0 (Get log "duration")) as [h|] eqn:Hh; [|done].
  simpl in Hp. simplify_eq. simpl.
  split; [done|]. split; [by eapply Number_or_0_not_nan|done].
Qed.

Lemma forecastPoint_spec f p :
  forecastPoint f = Some p ->
  type p = Forecast /\
  is_nan (hours p) = false /\ is_nan (min p) = false /\ is_nan (max p) = false.
Proof.
  unfold forecastPoint. intros Hp.
  apply bind_Some in Hp as (d & _ & Hp).
  apply bind_Some in Hp as (h & Hh & Hp).
  apply bind_Some in Hp as (mn & Hmn & Hp).
  apply bind_Some in Hp as (mx & Hmx & Hp).
  simplify_eq. simpl.
  split; [done|]. split; [by eapply Number_or_0_not_nan|].
  split; by eapply Number_or_hours_not_nan.
Qed.

Lemma Array_map_Forall {B : Type} (f : value -> option B) (P : B -> Prop) v l :
  (forall x y, f x = Some y -> P y) -> Array_map f v = Some l -> Forall P l.
Proof.
  intros Hf. destruct v; simpl; try done. intros Hm.
  apply mapM_Some in Hm. induction Hm; constructor; eauto.
Qed.

(** A record is never dropped: one chart point per entry. *)
Lemma Array_map_length {B : Type} (f : value -> option B) xs l :
  Array_map f (VArray xs) = Some l -> length l = length xs.
Proof. simpl. intros Hm. by apply length_mapM in Hm. Qed.

(** C2, as amended.  Every chart point that [normalizeHistory] or
    [normalizeForecast] produces has [hours], [min] and [max] that are
    numbers other than NaN (an infinity passes through), and a history
    point has [min = max = hours]. *)
Theorem normalize_not_nan (entries : value) (ps : list ChartPoint) :
  (normalizeHistory entries = Some ps ->
   Forall (λ p, is_nan (hours p) = false /\ min p = hours p /\ max p = hours p) ps) /\
  (normalizeForecast entries = Some ps ->
   Forall (λ p, is_nan (hours p) = false /\ is_nan (min p) = false /\
                is_nan (max p) = false) ps).
Proof.
  split; apply Array_map_Forall.
  - intros log p Hp. by apply historyPoint_spec in Hp as (_ & ? & ? & ?).
  - intros f p Hp. by apply forecastPoint_spec in Hp as (_ & ? & ? & ?).
Qed.

Lemma historyPoint_hours log p :
  historyPoint log = Some p -> Number_or_0 (Get log "duration") = Some (hours p).
Proof.
  unfold historyPoint. intros Hp.
  apply bind_Some in Hp as (d & _ & Hp).
  destruct (Number_or_0 (Get log "duration")) as [h|]; [|done].
  simpl in Hp. by simplify_eq.
Qed.

Lemma forecastPoint_hours f p :
  forecastPoint f = Some p -> Number_or_0 (Get f "hours") = Some (hours p).
Proof.
  unfold forecastPoint. intros Hp.
  apply bind_Some in Hp as (d & _ & Hp).
  apply bind_Some in Hp as (h & Hh & Hp).
  apply bind_Some in Hp as (mn & Hmn & Hp).
  apply bind_Some in Hp as (mx & Hmx & Hp).
  by simplify_eq.
Qed.

(** An entry with primitive fields always gives a point. *)
Lemma historyPoint_is_Some props :
  match own_property "duration" props with
  | VArray _ | VObject _ => False
  | _ => True
  end ->
  is_Some (historyPoint (VObject props)).
Proof.
  unfold historyPoint, Number_or_0. simpl.
  destruct (own_property "duration" props); simpl; done.
Qed.

(** On every engine, an infinite duration passes through. *)
Lemma historyPoint_infinity props s :
  own_property "duration" props = VNumber (S754_infinity s) ->
  exists p, historyPoint (VObject props) = Some p /\ hours p = S754_infinity s.
Proof.
  intros Hd. unfold historyPoint, Number_or_0. simpl. rewrite Hd. simpl.
  eexists. split; [done|]. done.
Qed.

(** What [min] of a forecast point is, by the number [range.min] coerces
    to: that number when it is truthy, and [Number(f.hours) || 0] when it
    is NaN and also when it is a zero. *)
Lemma forecastPoint_min f p r n :
  forecastPoint f = Some p -> Get f "range" = Some r ->
  Number (GetOpt r "min") = Some n ->
  Some (min p) = if truthy n then Some n else Number_or_0 (Get f "hours").
Proof.
  unfold forecastPoint. intros Hp Hr Hn.
  apply bind_Some in Hp as (d & _ & Hp).
  apply bind_Some in Hp as (h & Hh & Hp).
  apply bind_Some in Hp as (mn & Hmn & Hp).
  apply bind_Some in Hp as (mx & Hmx & Hp).
  simplify_eq. simpl. rewrite <- Hmn.
  unfold Number_or_hours. rewrite Hr. simpl. rewrite Hn. simpl. done.
Qed.

Lemma forecastPoint_max f p r n :
  forecastPoint f = Some p -> Get f "range" = Some r ->
  Number (GetOpt r "max") = Some n ->
  Some (max p) = if truthy n then Some n else Number_or_0 (Get f "hours").
Proof.
  unfold forecastPoint. intros Hp Hr Hn.
  apply bind_Some in Hp as (d & _ & Hp).
  apply bind_Some in Hp as (h & Hh & Hp).
  apply bind_Some in Hp as (mn & Hmn & Hp).
  apply bind_Some in Hp as (mx & Hmx & Hp).
  simplify_eq. simpl. rewrite <- Hmx.
  unfold Number_or_hours. rewrite Hr. simpl. rewrite Hn. simpl. done.
Qed.

(** On every engine, a lower bound of zero is replaced by the hours. *)
Lemma forecastPoint_min_zero f p r s :
  forecastPoint f = Some p -> Get f "range" = Some r ->
  GetOpt r "min" = VNumber (S754_zero s) -> min p = hours p.
Proof.
  intros Hp Hr Hmin.
  pose proof (forecastPoint_min f p r (S754_zero s) Hp Hr) as Hm.
  rewrite Hmin in Hm. specialize (Hm eq_refl). simpl in Hm.
  rewrite (forecastPoint_hours f p Hp) in Hm. by simplify_eq.
Qed.

End Normaliser.

(** ** Order among points of one date *)

Lemma app_split_kinds {A : Type} (P Q : A -> Prop) (l1 l2 X Y : list A) (f : A) :
  Forall P l1 -> Forall Q l2 -> ~ P f -> l1 ++ l2 = X ++ f :: Y -> Forall Q Y.
Proof.
  intros Hl1 Hl2 Hf. revert X. induction Hl1 as [|a l1 Ha Hl1 IH]; intros X Heq; simpl in Heq.
  - subst l2. apply Forall_app in Hl2 as [_ Hl2]. by apply Forall_cons in Hl2 as [_ ?].
  - destruct X as [|x X]; simpl in Heq; simplify_eq; [done|]. by eapply IH.
Qed.

Lemma filter_head_split {A : Type} (P : A -> Prop) `{!forall x, Decision (P x)}
    (l : list A) (p : A) (rest : list A) :
  filter P l = p :: rest ->
  exists l1 l2, l = l1 ++ p :: l2 /\ Forall (λ x, ~ P x) l1.
Proof.
  induction l as [|x l IH]; [done|].
  rewrite filter_cons. case_decide as Hx.
  - intros Heq. simplify_eq. by exists [], l.
  - intros Heq. destruct (IH Heq) as (l1 & l2 & -> & Hl1).
    exists (x :: l1), l2. split; [done|]. by constructor.
Qed.

Section Ties.
Context {host : Host}.

Lemma historyData_kind logsRes H :
  historyData logsRes = Some H -> Forall (λ p, type p = History) H.
Proof.
  unfold historyData, normalizeHistory. intros HH.
  apply bind_Some in HH as (ps & Hps & Hsort).
  rewrite (sort_Permutation _ _ _ Hsort).
  eapply Array_map_Forall; [|exact Hps].
  intros log p Hp. by apply historyPoint_spec in Hp as (? & _).
Qed.

Lemma forecastPoints_kind forecastRes F :
  forecastPoints forecastRes = Some F -> Forall (λ p, type p = Forecast) F.
Proof.
  unfold forecastPoints, normalizeForecast.
  apply Array_map_Forall. intros f p Hp. by apply forecastPoint_spec in Hp as (? & _).
Qed.

(** In a merge of history points and forecast points with valid dates,
    no history point comes after a forecast point of the same instant. *)
Lemma merge_tie H F out l1 f l2 :
  Forall (λ p, type p = History) H -> Forall (λ p, type p = Forecast) F ->
  Forall (λ p, is_Some (instant (date p))) (H ++ F) ->
  merge H F = Some out -> out = l1 ++ f :: l2 -> type f = Forecast ->
  Forall (λ h, instant (date h) = instant (date f) -> type h = Forecast) l2.
Proof.
  intros HH HF Hvalid Hout -> Hf.
  destruct (sort_stable byDate (λ p, instant (date p)) byDate_key (H ++ F) Hvalid)
    as (s & Hs & _ & Hstable).
  unfold merge in Hout. rewrite Hs in Hout. simplify_eq.
  specialize (Hstable (default 0 (instant (date f)))).
  rewrite !filter_app, filter_cons_True in Hstable by done.
  symmetry in Hstable.
  apply (app_split_kinds (λ p, type p = History) (λ p, type p = Forecast)) in Hstable.
  - apply Forall_forall. intros h Hh Heq.
    rewrite Forall_forall in Hstable. apply Hstable.
    apply list_elem_of_filter. split; [by rewrite Heq|done].
  - apply Forall_forall. intros p [_ Hp]%list_elem_of_filter.
    rewrite Forall_forall in HH. by apply HH.
  - apply Forall_forall. intros p [_ Hp]%list_elem_of_filter.
    rewrite Forall_forall in HF. by apply HF.
  - by rewrite Hf.
Qed.

(** C10.  In the merged series of [loadData], provided the date of
    every point of the series parses to a valid instant, when a history
    point and a forecast point have dates that parse to the same instant,
    the history point comes first. *)
Theorem chartData_history_before_forecast (logsRes forecastRes : value)
    (out : list ChartPoint) (i j : nat) (h f : ChartPoint) :
  chartData logsRes forecastRes = Some out ->
  Forall (λ p, is_Some (instant (date p))) out ->
  out !! i = Some h -> out !! j = Some f ->
  type h = History -> type f = Forecast ->
  instant (date h) = instant (date f) ->
  (i < j)%nat.
Proof.
  unfold chartData. intros Hout Hvalid Hi Hj Hh Hf Heq.
  apply bind_Some in Hout as (H & HH & Hout).
  apply bind_Some in Hout as (F & HF & Hout).
  destruct (Nat.lt_total i j) as [Hlt|[->|Hgt]]; [done| |].
  - rewrite Hi in Hj. simplify_eq. congruence.
  - exfalso.
    pose proof (take_drop_middle out j f Hj) as Hsplit. symmetry in Hsplit.
    assert (Hvalid' : Forall (λ p, is_Some (instant (date p))) (H ++ F)).
    { unfold merge in Hout. by rewrite <- (sort_Permutation _ _ _ Hout). }
    pose proof (merge_tie H F out _ f _ (historyData_kind _ _ HH)
      (forecastPoints_kind _ _ HF) Hvalid' Hout Hsplit Hf) as Htie.
    rewrite Forall_forall in Htie.
    assert (Hin : h ∈ drop (S j) out).
    { apply list_elem_of_lookup. exists (i - S j)%nat.
      rewrite lookup_drop. replace (S j + (i - S j))%nat with i by lia. done. }
    specialize (Htie h Hin Heq). congruence.
Qed.

(** [chartData] is the series of an engine whose sort is [sort]. *)
Lemma chartData_with_sort (logsRes forecastRes : value) :
  chartData_with (@sort ChartPoint) logsRes forecastRes = chartData logsRes forecastRes.
Proof.
  unfold chartData_with, chartData, historyData, merge.
  by destruct (normalizeHistory _).
Qed.

End Ties.

(** ** The next forecast *)

Section Summary.
Context {host : Host}.

Lemma rawInstant_object x t : rawInstant x = Some t -> exists props, x = VObject props.
Proof.
  unfold rawInstant, instant.
  destruct x; simpl; try done; eauto.
Qed.

Lemma rawInstant_defined xs :
  Forall (λ x, is_Some (rawInstant x)) xs ->
  filter (λ v, is_undefined v = false) xs = xs /\
  filter (λ v, is_undefined v = true) xs = [].
Proof.
  induction 1 as [|x xs [t Hx] _ [IH1 IH2]]; [done|].
  apply rawInstant_object in Hx as [props ->].
  rewrite filter_cons_True, filter_cons_False, IH1, IH2 by done. done.
Qed.

Lemma Array_sort_stable xs :
  Forall (λ x, is_Some (rawInstant x)) xs ->
  exists s, Array_sort byDateRaw xs = Some s /\ s ≡ₚ xs /\
    StronglySorted (λ x y, default 0 (rawInstant x) <= default 0 (rawInstant y)) s /\
    forall t, filter (λ y, default 0 (rawInstant y) = t) s
              = filter (λ y, default 0 (rawInstant y) = t) xs.
Proof.
  intros Hxs. unfold Array_sort.
  destruct (rawInstant_defined xs Hxs) as [-> ->].
  destruct (sort_stable byDateRaw rawInstant byDateRaw_key xs Hxs)
    as (s & Hs & Hsorted & Hstable).
  exists s. rewrite Hs. simpl. rewrite app_nil_r.
  split; [done|]. split; [by eapply sort_Permutation|done].
Qed.

(** C7.  With no bundle, no [forecast] in the bundle, or an empty
    [forecast], the summary is "no forecast": neither a point nor a
    confidence. *)
Theorem summarize_absent (bundle : value) :
  nullish bundle = true \/ nullish (GetOpt bundle "forecast") = true \/
    GetOpt bundle "forecast" = VArray [] ->
  nextForecast bundle = Some VNull /\ summarize bundle = Some NoForecast.
Proof.
  intros Hcase.
  assert (Hnext : nextForecast bundle = Some VNull).
  { unfold nextForecast, coalesce.
    destruct Hcase as [Hb|[Hf| ->]]; [| |done].
    - destruct bundle; simplify_eq/=; done.
    - by rewrite Hf. }
  split; [done|]. unfold summarize. by rewrite Hnext.
Qed.

(** The next forecast is the first point of the input that has the
    earliest instant. *)
Lemma nextForecast_first_minimum (bundle : value) (fcArr : list value) :
  GetOpt bundle "forecast" = VArray fcArr -> fcArr <> [] ->
  Forall (λ x, is_Some (rawInstant x)) fcArr ->
  exists l1 p l2 t,
    fcArr = l1 ++ p :: l2 /\ rawInstant p = Some t /\
    nextForecast bundle = Some p /\
    summarize bundle = (c ← confidencePercent bundle; Some (NextForecast p c)) /\
    Forall (λ q, exists u, rawInstant q = Some u /\ t < u) l1 /\
    Forall (λ q, exists u, rawInstant q = Some u /\ t <= u) l2.
Proof.
  intros Hfc Hne Hvalid.
  destruct (Array_sort_stable fcArr Hvalid) as (s & Hs & Hperm & Hsorted & Hstable).
  destruct s as [|p s].
  { apply Permutation_nil_l in Hperm. by subst. }
  assert (Hp : p ∈ fcArr) by (rewrite <- Hperm; left).
  rewrite Forall_forall in Hvalid.
  destruct (Hvalid p Hp) as [t Ht].
  specialize (Hstable t). rewrite filter_cons_True in Hstable by (by rewrite Ht).
  symmetry in Hstable.
  apply filter_head_split in Hstable as (l1 & l2 & -> & Hl1).
  assert (Hmin : forall q, q ∈ l1 ++ p :: l2 ->
            exists u, rawInstant q = Some u /\ t <= u).
  { intros q Hq. destruct (Hvalid q Hq) as [u Hu]. exists u. split; [done|].
    rewrite <- Hperm in Hq. apply StronglySorted_inv in Hsorted as [_ Hall].
    apply elem_of_cons in Hq as [->|Hq]; [simplify_eq; lia|].
    rewrite Forall_forall in Hall. specialize (Hall q Hq).
    rewrite Ht, Hu in Hall. done. }
  assert (Hnext : nextForecast bundle = Some p).
  { unfold nextForecast. rewrite Hfc. simpl.
    destruct (l1 ++ p :: l2) eqn:E; [by destruct l1|]. simpl.
    rewrite Hs. done. }
  exists l1, p, l2, t. split; [done|]. split; [done|]. split; [done|]. split.
  - unfold summarize. rewrite Hnext. simpl.
    by destruct (rawInstant_object p t Ht) as [props ->].
  - split; apply Forall_forall; intros q Hq.
    + destruct (Hmin q) as (u & Hu & Hle); [apply elem_of_app; by left|].
      exists u. split; [done|].
      rewrite Forall_forall in Hl1. specialize (Hl1 q Hq).
      rewrite Hu in Hl1. simpl in Hl1. lia.
    + apply Hmin. apply elem_of_app. right. by right.
Qed.

(** C8.  For a bundle whose [forecast] is a non-empty array of points
    with valid dates, the next forecast is the first point of the input
    that has the earliest instant: the points before it in the input are
    strictly later, the points after it are not earlier.  The summary
    shows that point, and however the input is reordered the point
    selected has that same instant. *)
Theorem nextForecast_earliest (bundle : value) (fcArr : list value) :
  GetOpt bundle "forecast" = VArray fcArr -> fcArr <> [] ->
  Forall (λ x, is_Some (rawInstant x)) fcArr ->
  exists l1 p l2 t,
    fcArr = l1 ++ p :: l2 /\ rawInstant p = Some t /\
    nextForecast bundle = Some p /\
    summarize bundle = (c ← confidencePercent bundle; Some (NextForecast p c)) /\
    Forall (λ q, exists u, rawInstant q = Some u /\ t < u) l1 /\
    Forall (λ q, exists u, rawInstant q = Some u /\ t <= u) l2 /\
    forall bundle' fcArr' p',
      GetOpt bundle' "forecast" = VArray fcArr' -> fcArr' ≡ₚ fcArr ->
      nextForecast bundle' = Some p' -> rawInstant p' = Some t.
Proof.
  intros Hfc Hne Hvalid.
  destruct (nextForecast_first_minimum bundle fcArr Hfc Hne Hvalid)
    as (l1 & p & l2 & t & Hsplit & Ht & Hnext & Hsum & Hl1 & Hl2).
  exists l1, p, l2, t. do 6 (split; [done|]).
  intros bundle' fcArr' p' Hfc' Hperm Hnext'.
  assert (Hne' : fcArr' <> []).
  { intros ->. apply Permutation_nil_l in Hperm. by subst. }
  assert (Hvalid' : Forall (λ x, is_Some (rawInstant x)) fcArr') by (by rewrite Hperm).
  destruct (nextForecast_first_minimum bundle' fcArr' Hfc' Hne' Hvalid')
    as (l1' & q & l2' & t' & Hsplit' & Ht' & Hnext'' & _ & Hl1' & Hl2').
  rewrite Hnext' in Hnext''. simplify_eq.
  assert (Hlow : forall l1 p l2 t x u,
            rawInstant p = Some t ->
            Forall (λ q, exists u, rawInstant q = Some u /\ t < u) l1 ->
            Forall (λ q, exists u, rawInstant q = Some u /\ t <= u) l2 ->
            x ∈ l1 ++ p :: l2 -> rawInstant x = Some u -> t <= u).
  { clear. intros l1 p l2 t x u Ht Hl1 Hl2 Hx Hu.
    rewrite Forall_forall in Hl1, Hl2.
    apply elem_of_app in Hx as [Hx|Hx].
    - destruct (Hl1 x Hx) as (u' & Hu' & ?). simplify_eq. lia.
    - apply elem_of_cons in Hx as [->|Hx]; [simplify_eq; lia|].
      destruct (Hl2 x Hx) as (u' & Hu' & ?). by simplify_eq. }
  assert (t <= t').
  { eapply (Hlow l1 p l2 t q t'); try done.
    rewrite <- Hperm. apply elem_of_app. right. by left. }
  assert (t' <= t).
  { eapply (Hlow l1' q l2' t' p t); try done.
    rewrite Hperm. apply elem_of_app. right. by left. }
  rewrite Ht'. f_equal. lia.
Qed.

(** The confidence note by cases on the [confidence] number. *)
Lemma confidencePercent_number props n :
  own_property "confidence" props = VNumber n ->
  confidencePercent (VObject props) =
    Some (if truthy n then Some (Math_round (mul n (of_Z 100))) else None).
Proof.
  intros Hn. unfold confidencePercent. simpl. rewrite Hn. simpl.
  by destruct (truthy n).
Qed.

(** [formatDate] on a string that does not parse. *)
Lemma formatDate_unparseable s :
  Date_parse s = None -> formatDate (VString s) = VString Invalid_Date.
Proof. intros Hs. unfold formatDate. simpl. by rewrite Hs. Qed.

(** [formatDate] returns for every string. *)
Lemma formatDate_string s : exists r, formatDate (VString s) = VString r.
Proof. unfold formatDate. simpl. eauto. Qed.

End Summary.

(** ** The bundle's array is not reordered *)

Section Frame.
Context {host : Host}.

Lemma spread_fresh xs (σ : gmap loc (list value)) :
  σ !! (spread xs σ).2 = None /\ (spread xs σ).1 = <[(spread xs σ).2 := xs]> σ.
Proof.
  unfold spread. simpl. split; [|done].
  apply not_elem_of_dom. apply is_fresh.
Qed.

Lemma sort_in_place_copy comparefn xs (σ : gmap loc (list value)) c :
  σ !! c = None ->
  σ ⊆ (sort_in_place comparefn c (<[c := xs]> σ)).1.
Proof.
  intros Hc. unfold sort_in_place. rewrite lookup_insert_eq.
  destruct (Array_sort comparefn xs) as [s|]; simpl.
  - rewrite insert_insert_eq. by apply insert_subseteq.
  - by apply insert_subseteq.
Qed.

(** C9.  Selecting the next forecast leaves every array object that
    existed before as it was, the bundle's [forecast] array among them:
    the sort reorders a copy. *)
Theorem nextForecast_of_frame (fcArr : loc) (σ : gmap loc (list value)) :
  (nextForecast_of fcArr σ).1 !! fcArr = σ !! fcArr /\
  σ ⊆ (nextForecast_of fcArr σ).1.
Proof.
  assert (Hsub : σ ⊆ (nextForecast_of fcArr σ).1).
  { unfold nextForecast_of.
    destruct (σ !! fcArr) as [xs|] eqn:Hxs; [|done].
    destruct (length xs =? 0)%nat; [done|].
    destruct (spread_fresh xs σ) as [Hfresh Hstore].
    destruct (spread xs σ) as [σ1 copy]. simpl in Hfresh, Hstore. subst σ1.
    pose proof (sort_in_place_copy byDateRaw xs σ copy Hfresh) as Hsub.
    by destruct (sort_in_place byDateRaw copy (<[copy:=xs]> σ)) as [σ2 [sorted|]]. }
  split; [|done].
  destruct (σ !! fcArr) as [xs|] eqn:Hxs.
  - by eapply lookup_weaken.
  - unfold nextForecast_of. by rewrite Hxs.
Qed.

(** The value selected on the store is the one [nextForecast] selects. *)
Lemma nextForecast_of_result (fcArr : loc) (σ : gmap loc (list value)) xs rest :
  σ !! fcArr = Some xs ->
  (nextForecast_of fcArr σ).2 = nextForecast (VObject (("forecast", VArray xs) :: rest)).
Proof.
  intros Hxs. unfold nextForecast_of, nextForecast. rewrite Hxs. simpl.
  destruct (length xs =? 0)%nat; [done|].
  unfold sort_in_place, spread. rewrite lookup_insert_eq.
  destruct (Array_sort byDateRaw xs) as [s|]; simpl; [|done].
  by rewrite lookup_insert_eq.
Qed.

End Frame.

(** ** Loading *)

Section Loading.
Context {host : Host}.

Lemma loadData_fulfilled statsRes forecastRes logsRes st :
  loadData (Fulfilled statsRes) (Fulfilled forecastRes) (Fulfilled logsRes) st =
  {| stats := coalesce (GetOpt statsRes "data") defaultStats;
     forecast := coalesce (GetOpt forecastRes "data") VNull;
     logs := default (logs st) (chartData logsRes forecastRes);
     loading := false |}.
Proof.
  unfold loadData, loadData_try, try_catch_finally, mbind, Eff_bind, lift. simpl.
  by destruct (chartData logsRes forecastRes).
Qed.

(** C5, as amended.  When a request rejects, the whole batch is given
    up: [stats], [forecast] and [logs] keep the values they had before
    the load (on the first load, the initial defaults), no series is
    built, and only [loading] is cleared.  When the three requests
    resolve, a source that came without data is replaced by its own
    default and the series is built from what the sources delivered. *)
Theorem loadData_sources (statsReq forecastReq logsReq : settled) (st : State) :
  (is_rejected statsReq \/ is_rejected forecastReq \/ is_rejected logsReq ->
   loadData statsReq forecastReq logsReq st =
   {| stats := stats st; forecast := forecast st; logs := logs st; loading := false |}) /\
  (forall statsRes forecastRes logsRes,
   statsReq = Fulfilled statsRes -> forecastReq = Fulfilled forecastRes ->
   logsReq = Fulfilled logsRes ->
   loadData statsReq forecastReq logsReq st =
   {| stats := coalesce (GetOpt statsRes "data") defaultStats;
      forecast := coalesce (GetOpt forecastRes "data") VNull;
      logs := default (logs st) (chartData logsRes forecastRes);
      loading := false |}).
Proof.
  split.
  - intros Hrej. unfold loadData, loadData_try, try_catch_finally, mbind, Eff_bind.
    destruct statsReq, forecastReq, logsReq; simpl in *;
      first [done | by destruct Hrej as [?|[?|?]]].
  - intros statsRes forecastRes logsRes -> -> ->. apply loadData_fulfilled.
Qed.

End Loading.

(** * Further properties of the dashboard *)

(** ** A stable ordering is unique *)

Section Uniqueness.
Context {A : Type} (tm : A -> Z).

Lemma StronglySorted_head_le x l y :
  StronglySorted (λ a b, tm a <= tm b) (x :: l) -> y ∈ x :: l -> tm x <= tm y.
Proof.
  intros [_ Hall]%StronglySorted_inv [->|Hy]%elem_of_cons; [lia|].
  rewrite Forall_forall in Hall. by apply Hall.
Qed.

Lemma stable_sorted_unique l1 l2 :
  StronglySorted (λ a b, tm a <= tm b) l1 ->
  StronglySorted (λ a b, tm a <= tm b) l2 ->
  (forall t, filter (λ y, tm y = t) l1 = filter (λ y, tm y = t) l2) ->
  l1 = l2.
Proof.
  revert l2. induction l1 as [|x l1 IH]; intros l2 Hs1 Hs2 Hf.
  - destruct l2 as [|y l2]; [done|].
    specialize (Hf (tm y)). rewrite filter_cons_True in Hf by done. done.
  - pose proof (Hf (tm x)) as Hx. rewrite filter_cons_True in Hx by done.
    symmetry in Hx. apply filter_head_split in Hx as (a & b & -> & Ha).
    destruct a as [|y a].
    + simpl in *. f_equal.
      apply IH; [by apply StronglySorted_inv in Hs1 as [? _]
                |by apply StronglySorted_inv in Hs2 as [? _]|].
      intros t. specialize (Hf t). rewrite !filter_cons in Hf.
      case_decide; by simplify_eq.
    + exfalso. apply Forall_cons in Ha as [Hy _].
      assert (tm y <= tm x).
      { apply (StronglySorted_head_le y (a ++ x :: b)); [done|].
        right. apply elem_of_app. right. by left. }
      pose proof (Hf (tm y)) as Hfy. simpl in Hfy.
      rewrite (filter_cons_True _ y), filter_cons_False in Hfy by (done || lia).
      assert (Hin : y ∈ l1).
      { assert (Hin : y ∈ filter (λ z, tm z = tm y) l1) by (rewrite Hfy; left).
        by apply list_elem_of_filter in Hin as [_ ?]. }
      assert (tm x <= tm y); [|lia].
      apply (StronglySorted_head_le x l1); [done|by right].
Qed.

Lemma StronglySorted_filter_le (P : A -> Prop) `{!forall x, Decision (P x)} l :
  StronglySorted (λ a b, tm a <= tm b) l ->
  StronglySorted (λ a b, tm a <= tm b) (filter P l).
Proof.
  induction 1 as [|x l Hl IH Hx]; [constructor|].
  rewrite filter_cons. case_decide; [|done].
  constructor; [done|].
  apply Forall_forall. intros y [_ Hy]%list_elem_of_filter.
  rewrite Forall_forall in Hx. by apply Hx.
Qed.

End Uniqueness.

Section MoreReconciliation.
Context {host : Host}.

Local Abbreviation tmP := (λ p : ChartPoint, default 0 (instant (date p))).

(** The sort of points with valid dates, by what it returns. *)
Lemma sort_byDate_valid l :
  Forall (λ p, is_Some (instant (date p))) l ->
  exists s, sort byDate l = Some s /\ s ≡ₚ l /\
    StronglySorted (λ a b, tmP a <= tmP b) s /\
    forall t, filter (λ y, tmP y = t) s = filter (λ y, tmP y = t) l.
Proof.
  intros Hvalid.
  destruct (sort_stable byDate (λ p, instant (date p)) byDate_key l Hvalid)
    as (s & Hs & Hsorted & Hstable).
  exists s. split; [done|]. split; [by eapply sort_Permutation|done].
Qed.

Lemma Array_map_array {B : Type} (f : value -> option B) v l :
  Array_map f v = Some l -> exists xs, v = VArray xs /\ mapM f xs = Some l.
Proof. destruct v; simpl; try done. eauto. Qed.

Lemma chartData_parts logsRes forecastRes out :
  chartData logsRes forecastRes = Some out ->
  exists ls fs H0 H F,
    coalesce (GetOpt logsRes "data") (VArray []) = VArray ls /\
    coalesce (GetOpt (GetOpt forecastRes "data") "forecast") (VArray []) = VArray fs /\
    mapM historyPoint ls = Some H0 /\ sort byDate H0 = Some H /\
    mapM forecastPoint fs = Some F /\ merge H F = Some out.
Proof.
  unfold chartData, historyData, forecastPoints, normalizeHistory, normalizeForecast.
  intros Hout.
  apply bind_Some in Hout as (H & HH & Hout).
  apply bind_Some in Hout as (F & HF & Hout).
  apply bind_Some in HH as (H0 & HH0 & HH).
  apply Array_map_array in HH0 as (ls & Hls & HH0).
  apply Array_map_array in HF as (fs & Hfs & HF).
  by exists ls, fs, H0, H, F.
Qed.

(** X1.  Whenever a series is built, the logs and the forecast that
    were delivered are arrays (a missing one counts as empty) and the
    series has one point for each of their records: the number of log
    entries plus the number of forecast points. *)
Theorem chartData_length (logsRes forecastRes : value) (out : list ChartPoint) :
  chartData logsRes forecastRes = Some out ->
  exists ls fs,
    coalesce (GetOpt logsRes "data") (VArray []) = VArray ls /\
    coalesce (GetOpt (GetOpt forecastRes "data") "forecast") (VArray []) = VArray fs /\
    length out = (length ls + length fs)%nat.
Proof.
  intros Hout.
  apply chartData_parts in Hout as (ls & fs & H0 & H & F & Hls & Hfs & HH0 & HH & HF & Hout).
  exists ls, fs. split; [done|]. split; [done|].
  apply merge_length in Hout. apply sort_length in HH.
  apply length_mapM in HH0, HF. lia.
Qed.

(** X2.  Log entries that are objects with a primitive [duration] (a
    number, a string, a boolean, null or none at all) are all
    normalised, in the order they came: each point keeps its entry's
    [date], and its [hours] is the number the duration coerces to, or 0
    when that is NaN or a zero. *)
Theorem normalizeHistory_entries (entries : list (list (string * value))) :
  Forall (λ props, is_primitive (own_property "duration" props)) entries ->
  exists ps,
    normalizeHistory (VArray (VObject <$> entries)) = Some ps /\
    Forall2 (λ props p,
      date p = own_property "date" props /\ type p = History /\
      exists n, Number (own_property "duration" props) = Some n /\
        hours p = (if truthy n then n else zero)) entries ps.
Proof.
  unfold normalizeHistory. simpl.
  induction 1 as [|props entries Hprim _ (ps & Hps & Hall)].
  - by exists [].
  - assert (Hn : exists n, Number (own_property "duration" props) = Some n).
    { destruct (own_property "duration" props); simpl in *; eauto; done. }
    destruct Hn as [n Hn].
    exists ({| date := own_property "date" props; hours := or_number n zero;
               min := or_number n zero; max := or_number n zero;
               type := History |} :: ps).
    split.
    + rewrite fmap_cons. apply mapM_Some. constructor; [|by apply mapM_Some].
      unfold historyPoint, Number_or_0. simpl. rewrite Hn. done.
    + constructor; [|done]. simpl. split; [done|]. split; [done|]. by exists n.
Qed.

Lemma hasForecast_true l :
  hasForecast l = true <-> exists p, p ∈ l /\ type p = Forecast.
Proof.
  unfold hasForecast. rewrite existsb_exists. split.
  - intros (p & Hp & Ht). exists p. split; [by apply list_elem_of_In|].
    by destruct (type p).
  - intros (p & Hp & Ht). exists p. split; [by apply list_elem_of_In|].
    by rewrite Ht.
Qed.

(** X3.  Whenever [loadData] builds a series (no exception while the
    logs and the forecast are mapped and sorted), the forecast that was
    delivered is an array, a missing one counting as empty, and the
    series has a forecast band, [logs.some(d => d.type === 'forecast')],
    exactly when that array has at least one point. *)
Theorem hasForecast_chartData (logsRes forecastRes : value) (out : list ChartPoint) :
  chartData logsRes forecastRes = Some out ->
  exists fs,
    coalesce (GetOpt (GetOpt forecastRes "data") "forecast") (VArray []) = VArray fs /\
    hasForecast out = (0 <? length fs)%nat.
Proof.
  intros Hout.
  pose proof Hout as Hparts.
  apply chartData_parts in Hparts
    as (ls & fs & H0 & H & F & Hls & Hfs & HH0 & HH & HF & Hmerge).
  exists fs. split; [done|].
  assert (Hperm : out ≡ₚ H ++ F) by (by eapply sort_Permutation).
  assert (HkH : Forall (λ p, type p = History) H).
  { rewrite (sort_Permutation _ _ _ HH).
    apply mapM_Some in HH0. clear -HH0.
    induction HH0 as [|x p xs ps Hp _ IH]; constructor; [|done].
    by apply historyPoint_spec in Hp as (? & _). }
  assert (HkF : Forall (λ p, type p = Forecast) F).
  { apply mapM_Some in HF. clear -HF.
    induction HF as [|x p xs ps Hp _ IH]; constructor; [|done].
    by apply forecastPoint_spec in Hp as (? & _). }
  apply length_mapM in HF.
  destruct (hasForecast out) eqn:Hhas.
  - apply hasForecast_true in Hhas as (p & Hp & Ht).
    rewrite Hperm in Hp. apply elem_of_app in Hp as [Hp|Hp].
    + rewrite Forall_forall in HkH. specialize (HkH p Hp). congruence.
    + destruct F; [by apply elem_of_nil in Hp|].
      symmetry. apply Nat.ltb_lt. simpl in HF. lia.
  - destruct F as [|p F].
    + symmetry. apply Nat.ltb_ge. simpl in HF. lia.
    + assert (Htrue : hasForecast out = true); [|congruence].
      apply hasForecast_true. exists p. split.
      * rewrite Hperm. apply elem_of_app. right. by left.
      * by apply Forall_cons in HkF as [? _].
Qed.

(** X5.  A merged series of points with valid dates is settled: to sort
    it again by date leaves it as it is. *)
Theorem merge_idempotent (H F out : list ChartPoint) :
  Forall (λ p, is_Some (instant (date p))) (H ++ F) ->
  merge H F = Some out -> merge out [] = Some out.
Proof.
  intros Hvalid Hout. unfold merge in *. rewrite app_nil_r.
  destruct (sort_byDate_valid (H ++ F) Hvalid) as (s & Hs & Hperm & Hsorted & Hstable).
  rewrite Hs in Hout. simplify_eq.
  destruct (sort_byDate_valid out) as (s' & Hs' & _ & Hsorted' & Hstable').
  { by rewrite Hperm. }
  rewrite Hs'. f_equal.
  by apply (stable_sorted_unique tmP).
Qed.

(** X6.  With valid dates, the series of [loadData] is the stable
    ordering by date of the normalised history followed by the forecast
    points: the sort of the history alone (line 47) changes nothing in
    it. *)
Theorem chartData_direct (logsRes forecastRes : value) (H0 F : list ChartPoint) :
  normalizeHistory (coalesce (GetOpt logsRes "data") (VArray [])) = Some H0 ->
  forecastPoints forecastRes = Some F ->
  Forall (λ p, is_Some (instant (date p))) (H0 ++ F) ->
  exists out, chartData logsRes forecastRes = Some out /\ merge H0 F = Some out.
Proof.
  intros HH0 HF Hvalid.
  pose proof Hvalid as [HvH HvF]%Forall_app.
  destruct (sort_byDate_valid H0 HvH) as (H & HH & HpermH & _ & HstableH).
  destruct (sort_byDate_valid (H ++ F)) as (out & Hout & _ & Hsorted & Hstable).
  { apply Forall_app. split; [by rewrite HpermH|done]. }
  destruct (sort_byDate_valid (H0 ++ F) Hvalid) as (out' & Hout' & _ & Hsorted' & Hstable').
  exists out. split.
  - unfold chartData, historyData. rewrite HH0. simpl. rewrite HH. simpl.
    rewrite HF. simpl. done.
  - unfold merge. rewrite Hout'. f_equal.
    apply (stable_sorted_unique tmP); [done|done|].
    intros t. rewrite Hstable', Hstable, !filter_app, HstableH. done.
Qed.

End MoreReconciliation.

(** ** Lists under a filter and a map *)

Lemma filter_comm {A : Type} (P Q : A -> Prop)
    `{!forall x, Decision (P x)} `{!forall x, Decision (Q x)} (l : list A) :
  filter P (filter Q l) = filter Q (filter P l).
Proof.
  induction l as [|x l IH]; [done|].
  rewrite !filter_cons. repeat case_decide; rewrite ?filter_cons; repeat case_decide;
    try done; by rewrite IH.
Qed.

Lemma filter_all {A : Type} (P : A -> Prop) `{!forall x, Decision (P x)} (l : list A) :
  Forall P l -> filter P l = l.
Proof. induction 1; [done|]. rewrite filter_cons_True by done. by f_equal. Qed.

Lemma filter_none {A : Type} (P : A -> Prop) `{!forall x, Decision (P x)} (l : list A) :
  Forall (λ x, ~ P x) l -> filter P l = [].
Proof. induction 1; [done|]. by rewrite filter_cons_False. Qed.

Lemma filter_fmap_key {A B : Type} (g : A -> B) (P : B -> Prop) (Q : A -> Prop)
    `{!forall x, Decision (P x)} `{!forall x, Decision (Q x)} (l : list A) :
  Forall (λ x, P (g x) <-> Q x) l -> filter P (g <$> l) = g <$> filter Q l.
Proof.
  induction 1 as [|x l Hx _ IH]; [done|].
  rewrite fmap_cons, !filter_cons.
  repeat case_decide; try tauto; rewrite ?fmap_cons; by rewrite IH.
Qed.

Lemma StronglySorted_fmap_key {A B : Type} (g : A -> B) (ta : A -> Z) (tb : B -> Z)
    (l : list A) :
  Forall (λ x, tb (g x) = ta x) l ->
  StronglySorted (λ a b, ta a <= ta b) l ->
  StronglySorted (λ a b, tb a <= tb b) (g <$> l).
Proof.
  intros Hkey Hsorted. induction Hsorted as [|x l Hl IH Hx]; [constructor|].
  apply Forall_cons in Hkey as [Hkx Hkey].
  rewrite fmap_cons. constructor; [by apply IH|].
  apply Forall_fmap. rewrite Forall_forall in Hx, Hkey.
  apply Forall_forall. intros y Hy. simpl.
  rewrite Hkx, (Hkey y Hy). by apply Hx.
Qed.

Lemma mapM_fmap_default {A B : Type} (f : A -> option B) (d : B) (l : list A) (k : list B) :
  mapM f l = Some k ->
  k = (λ x, default d (f x)) <$> l /\ Forall (λ x, f x = Some (default d (f x))) l.
Proof.
  intros Hm. apply mapM_Some in Hm.
  induction Hm as [|x y l k Hxy _ [-> IH]]; [done|].
  split.
  - rewrite fmap_cons, Hxy. done.
  - constructor; [by rewrite Hxy|done].
Qed.

(** ** The card and the chart *)

Section CardAndChart.
Context {host : Host}.

Lemma forecastPoint_date f p :
  forecastPoint f = Some p -> Get f "date" = Some (date p).
Proof.
  unfold forecastPoint. intros Hp.
  apply bind_Some in Hp as (d & Hd & Hp).
  apply bind_Some in Hp as (h & Hh & Hp).
  apply bind_Some in Hp as (mn & Hmn & Hp).
  apply bind_Some in Hp as (mx & Hmx & Hp).
  by simplify_eq.
Qed.

Lemma forecastPoint_instant f p :
  forecastPoint f = Some p -> rawInstant f = instant (date p).
Proof. intros Hp. unfold rawInstant. by rewrite (forecastPoint_date f p Hp). Qed.

(** X7.  The card and the chart agree on what comes next: when the
    dates are valid, the point the summary card selects is, once
    normalised, the first forecast point of the series. *)
Theorem nextForecast_first_in_chart (logsRes forecastRes : value)
    (fcArr : list value) (out : list ChartPoint) :
  GetOpt (GetOpt forecastRes "data") "forecast" = VArray fcArr -> fcArr <> [] ->
  chartData logsRes forecastRes = Some out ->
  Forall (λ p, is_Some (instant (date p))) out ->
  exists x p,
    nextForecast (GetOpt forecastRes "data") = Some x /\
    forecastPoint x = Some p /\
    head (filter (λ q, type q = Forecast) out) = Some p.
Proof.
  intros Hfc Hne Hout Hvalid.
  apply chartData_parts in Hout
    as (ls & fs & H0 & H & F & Hls & Hfs & HH0 & HH & HF & Hmerge).
  rewrite Hfc in Hfs. simpl in Hfs. injection Hfs as <-.
  set (dummy := {| date := VUndefined; hours := zero; min := zero; max := zero;
                   type := Forecast |}).
  destruct (mapM_fmap_default forecastPoint dummy fcArr F HF) as [HFmap Hg].
  set (g := λ x, default dummy (forecastPoint x)) in *.
  assert (Hperm : out ≡ₚ H ++ F) by (by eapply sort_Permutation).
  assert (HvalidHF : Forall (λ p, is_Some (instant (date p))) (H ++ F)) by (by rewrite <- Hperm).
  pose proof HvalidHF as [HvH HvF]%Forall_app.
  assert (Hkey : Forall (λ x, rawInstant x = instant (date (g x))) fcArr).
  { eapply Forall_impl; [exact Hg|]. intros x Hx. by apply forecastPoint_instant. }
  assert (Hraw : Forall (λ x, is_Some (rawInstant x)) fcArr).
  { rewrite HFmap, Forall_fmap in HvF.
    rewrite Forall_forall in HvF. rewrite Forall_forall in Hkey.
    apply Forall_forall. intros x Hx.
    rewrite (Hkey x Hx). by apply HvF. }
  destruct (Array_sort_stable fcArr Hraw) as (R & HR & HpermR & HsortedR & HstableR).
  destruct R as [|x R].
  { apply Permutation_nil_l in HpermR. by destruct Hne. }
  assert (Hx : x ∈ fcArr) by (rewrite <- HpermR; left).
  exists x, (g x). split; [|split].
  - unfold nextForecast. rewrite Hfc. simpl.
    destruct fcArr; [done|]. simpl. by rewrite HR.
  - rewrite Forall_forall in Hg. by apply Hg.
  - destruct (sort_byDate_valid (H ++ F) HvalidHF) as (s & Hs & _ & Hsorted & Hstable).
    unfold merge in Hmerge. rewrite Hs in Hmerge. simplify_eq.
    assert (HkH : Forall (λ p, type p = History) H).
    { rewrite (sort_Permutation _ _ _ HH).
      apply mapM_Some in HH0. clear -HH0.
      induction HH0 as [|y p ys ps Hp _ IH]; constructor; [|done].
      by apply historyPoint_spec in Hp as (? & _). }
    assert (HkF : Forall (λ p, type p = Forecast) (g <$> fcArr)).
    { apply mapM_Some in HF. clear -HF.
      induction HF as [|y p ys ps Hp _ IH]; constructor; [|done].
      by apply forecastPoint_spec in Hp as (? & _). }
    assert (HkeyR : Forall (λ y, default 0 (instant (date (g y))) = default 0 (rawInstant y))
                      (x :: R)).
    { rewrite HpermR. eapply Forall_impl; [exact Hkey|]. by intros y ->. }
    assert (Heq : filter (λ q, type q = Forecast) out = g <$> (x :: R)); [|by rewrite Heq].
    apply (stable_sorted_unique (λ p, default 0 (instant (date p)))).
    + by apply StronglySorted_filter_le.
    + by apply (StronglySorted_fmap_key g (λ y, default 0 (rawInstant y))).
    + intros t. rewrite filter_comm, Hstable, !filter_app.
      rewrite (filter_none _ (filter _ H)), (filter_all _ (filter _ (g <$> fcArr))).
      * rewrite app_nil_l.
        rewrite (filter_fmap_key g _ (λ y, default 0 (rawInstant y) = t)).
        -- rewrite (filter_fmap_key g _ (λ y, default 0 (rawInstant y) = t)).
           ++ by rewrite HstableR.
           ++ eapply Forall_impl; [exact HkeyR|]. intros y Hy. simpl. by rewrite Hy.
        -- eapply Forall_impl; [exact Hkey|]. intros y Hy. simpl. by rewrite Hy.
      * apply Forall_forall. intros q [_ Hq]%list_elem_of_filter.
        rewrite Forall_forall in HkF. by apply HkF.
      * apply Forall_forall. intros q [_ Hq]%list_elem_of_filter.
        rewrite Forall_forall in HkH. rewrite (HkH q Hq). done.
Qed.

Lemma fmtNum_number v d n :
  Number v = Some n -> truthy n = true -> is_undefined d = false ->
  fmtNum v d = Some (Localized n d).
Proof.
  intros Hn Ht Hd. unfold fmtNum. rewrite Hd.
  pose proof (truthy_not_nan n Ht) as Hnan.
  destruct v; try (rewrite Hn; simpl; by rewrite Hnan).
  - simpl in Hn. by simplify_eq.
  - simpl in Hn. by simplify_eq.
  - simpl in Hn. by simplify_eq.
Qed.

Lemma Get_GetOpt v k : nullish v = false -> Get v k = Some (GetOpt v k).
Proof. by destruct v. Qed.

Lemma Number_or_hours_bound f k n :
  nullish f = false ->
  Number (cardBound f k) = Some n -> truthy n = true ->
  Number_or_hours (r ← Get f "range"; Some (GetOpt r k)) f = Some n.
Proof.
  intros Hf Hn Ht. unfold Number_or_hours, cardBound, coalesce in *.
  rewrite (Get_GetOpt f "range" Hf). simpl.
  destruct (nullish (GetOpt (GetOpt f "range") k)) eqn:Hnull.
  - assert (Hfalsy : exists m, Number (GetOpt (GetOpt f "range") k) = Some m /\ truthy m = false).
    { destruct (GetOpt (GetOpt f "range") k); simplify_eq/=; eauto. }
    destruct Hfalsy as (m & -> & Hm). simpl. rewrite Hm.
    unfold Number_or_0. rewrite (Get_GetOpt f "hours" Hf). simpl. rewrite Hn. simpl.
    unfold or_number. by rewrite Ht.
  - rewrite Hn. simpl. by rewrite Ht.
Qed.

(** X8.  For the next forecast point, when each bound (or the hours,
    where the bound is missing) coerces to a number that is neither NaN
    nor zero, the bounds the summary card formats are the very numbers
    the chart draws as [min] and [max]. *)
Theorem card_bounds_match_chart (bundle f : value) (card : Card) (p : ChartPoint)
    (lo hi : number) :
  summaryCard bundle = Some (Some card) -> nextForecast bundle = Some f ->
  forecastPoint f = Some p ->
  Number (cardBound f "min") = Some lo -> truthy lo = true ->
  Number (cardBound f "max") = Some hi -> truthy hi = true ->
  minText card = Localized (min p) (VNumber (of_Z 1)) /\ min p = lo /\
  maxText card = Localized (max p) (VNumber (of_Z 1)) /\ max p = hi.
Proof.
  intros Hcard Hnext Hp Hlo Hlot Hhi Hhit.
  assert (Hf : nullish f = false).
  { apply forecastPoint_date in Hp. by destruct f. }
  assert (Hmin : min p = lo /\ max p = hi).
  { unfold forecastPoint in Hp.
    apply bind_Some in Hp as (d & Hd & Hp).
    apply bind_Some in Hp as (h & Hh & Hp).
    rewrite (Number_or_hours_bound f "min" lo Hf Hlo Hlot) in Hp.
    rewrite (Number_or_hours_bound f "max" hi Hf Hhi Hhit) in Hp.
    simpl in Hp. by simplify_eq. }
  destruct Hmin as [-> ->].
  unfold summaryCard in Hcard.
  apply bind_Some in Hcard as (f' & Hf' & Hcard).
  rewrite Hnext in Hf'. injection Hf' as <-.
  destruct (ToBoolean f); [|done].
  apply bind_Some in Hcard as (h & Hh & Hcard).
  apply bind_Some in Hcard as (hText & _ & Hcard).
  apply bind_Some in Hcard as (d & _ & Hcard).
  apply bind_Some in Hcard as (r & Hr & Hcard).
  apply bind_Some in Hcard as (loText & HloText & Hcard).
  apply bind_Some in Hcard as (hiText & HhiText & Hcard).
  apply bind_Some in Hcard as (c & _ & Hcard).
  rewrite (Get_GetOpt f _ Hf) in Hh. rewrite (Get_GetOpt f _ Hf) in Hr.
  injection Hh as <-. injection Hr as <-.
  fold (cardBound f "min") in HloText. fold (cardBound f "max") in HhiText.
  rewrite (fmtNum_number _ (VNumber (of_Z 1)) _ Hlo Hlot eq_refl) in HloText.
  rewrite (fmtNum_number _ (VNumber (of_Z 1)) _ Hhi Hhit eq_refl) in HhiText.
  by simplify_eq.
Qed.

Lemma loadData_loading a b c st : loading (loadData a b c st) = false.
Proof.
  destruct a as [x|x], b as [y|y], c as [z|z];
    try (by rewrite loadData_fulfilled); done.
Qed.

Lemma loadData_rejected_logs a b c st :
  is_rejected a \/ is_rejected b \/ is_rejected c ->
  logs (loadData a b c st) = logs st.
Proof.
  intros Hrej.
  destruct a as [x|x], b as [y|y], c as [z|z]; simpl in *;
    first [done | by destruct Hrej as [?|[?|?]]].
Qed.

(** X4.  When [loadData] ends the chart card never shows the loading
    text.  If a request was rejected it shows what the series held
    before the load: the earlier chart, or the no-data text when there
    was none, as after a first load. *)
Theorem chartCard_loaded (a b c : settled) (st : State) :
  chartCard (loadData a b c st) <> LoadingChart /\
  (is_rejected a \/ is_rejected b \/ is_rejected c ->
   chartCard (loadData a b c st) =
     (if (0 <? length (logs st))%nat then Chart (logs st) (hasForecast (logs st))
      else NoData) /\
   chartCard (loadData a b c initialState) = NoData).
Proof.
  split.
  - unfold chartCard. rewrite loadData_loading.
    by destruct (0 <? length (logs (loadData a b c st)))%nat.
  - intros Hrej. unfold chartCard.
    rewrite !loadData_loading, !loadData_rejected_logs by done. done.
Qed.

End CardAndChart.

(** ** The V8 engine's sort on valid dates

    The comparator's difference is negative, zero or positive as the
    time values are ordered, so [CountAndMakeRun] and the binary search
    see a consistent order. *)

Section BinaryOrder.

Lemma signed_negative s x : signed s x -> negative_number x = s /\ SFleb zero x = negb s.
Proof.
  destruct x as [?|s'| |s' ? ?]; simpl; intros Hs; try contradiction;
    subst s'; destruct s; split; reflexivity.
Qed.

Lemma sub_of_Z_order a b :
  Z.abs a <= 8640000000000000 -> Z.abs b <= 8640000000000000 ->
  let v := sub (of_Z a) (of_Z b) in
  negative_number v = (a <? b) /\ SFleb zero v = (b <=? a).
Proof.
  intros Ha Hb.
  assert (Hbig : 8640000000000000 < 2 ^ 53) by reflexivity.
  destruct (Z.eq_dec a 0) as [->|Ha0]; destruct (Z.eq_dec b 0) as [->|Hb0].
  - split; reflexivity.
  - destruct (of_Z_exact b) as (m & e & Hof & _ & _); [assumption|lia|].
    rewrite of_Z_0, Hof. simpl.
    destruct (signed_negative (negb (b <? 0)) (S754_finite (negb (b <? 0)) m e) eq_refl)
      as [-> ->].
    destruct (Z.ltb_spec b 0), (Z.ltb_spec 0 b), (Z.leb_spec b 0);
      simpl; split; reflexivity || lia.
  - destruct (of_Z_exact a) as (m & e & Hof & _ & _); [assumption|lia|].
    rewrite of_Z_0, Hof. simpl.
    destruct (signed_negative (a <? 0) (S754_finite (a <? 0) m e) eq_refl) as [-> ->].
    destruct (Z.ltb_spec a 0), (Z.leb_spec 0 a); simpl; split; reflexivity || lia.
  - destruct (of_Z_exact a) as (ma & ea & -> & Hea & Hma); [assumption|lia|].
    destruct (of_Z_exact b) as (mb & eb & -> & Heb & Hmb); [assumption|lia|].
    destruct (sub_finite_sign _ _ _ _ _ _ a b Hea Heb Hma Hmb) as (Heq & Hgt & Hlt).
    cbv zeta in *.
    destruct (Z.lt_total a b) as [Hab|[Hab|Hab]].
    + destruct (signed_negative _ _ (Hlt Hab)) as [-> ->].
      split; symmetry; [apply Z.ltb_lt|apply Z.leb_gt]; lia.
    + rewrite (Heq Hab). subst b. rewrite Z.ltb_irrefl, Z.leb_refl. split; reflexivity.
    + destruct (signed_negative _ _ (Hgt Hab)) as [-> ->].
      split; symmetry; [apply Z.ltb_ge|apply Z.leb_le]; lia.
Qed.

End BinaryOrder.

Lemma StronglySorted_app_le {A : Type} (tm : A -> Z) (l1 l2 : list A) :
  StronglySorted (λ a b, tm a <= tm b) l1 ->
  StronglySorted (λ a b, tm a <= tm b) l2 ->
  (forall a b, a ∈ l1 -> b ∈ l2 -> tm a <= tm b) ->
  StronglySorted (λ a b, tm a <= tm b) (l1 ++ l2).
Proof.
  intros H1 H2 H12. induction H1 as [|x l1 Hl1 IH Hx]; [done|].
  simpl. constructor.
  - apply IH. intros a b Ha Hb. apply H12; [by right|done].
  - apply Forall_app. split; [done|].
    apply Forall_forall. intros b Hb. apply H12; [by left|done].
Qed.

Lemma StronglySorted_lookup_le {A : Type} (tm : A -> Z) (l : list A) (i : nat) (y : A) :
  StronglySorted (λ a b, tm a <= tm b) l -> l !! i = Some y ->
  Forall (λ z, tm z <= tm y) (take (S i) l) /\ Forall (λ z, tm y <= tm z) (drop i l).
Proof.
  intros Hsorted. revert i. induction Hsorted as [|x l Hl IH Hx]; intros i Hi; [done|].
  destruct i as [|i]; simpl in *.
  - simplify_eq. split.
    + rewrite take_0. repeat constructor. lia.
    + constructor; [lia|done].
  - destruct (IH i Hi) as [Htake Hdrop]. split; [|done].
    constructor; [|done].
    rewrite Forall_forall in Hx. apply Hx. by eapply list_elem_of_lookup_2.
Qed.

Section EnginePermutation.
Context {A : Type} (comparefn : A -> A -> option number).

Lemma CountAndMakeRun_Permutation workArray runLength workArray' :
  CountAndMakeRun comparefn workArray = Some (runLength, workArray') ->
  workArray' ≡ₚ workArray.
Proof.
  unfold CountAndMakeRun. intros Hrun.
  destruct workArray as [|elementHigh [|elementLow rest]]; simplify_eq/=; [done|done|].
  destruct (SortCompare _ _ _) as [order|]; simplify_eq/=.
  destruct (extend_run _ _ _ _) as [n|]; simplify_eq/=.
  destruct (negative_number order); [|done].
  rewrite reverse_Permutation.
  change (take (S (S n)) (elementHigh :: elementLow :: rest) ++
          drop (S (S n)) (elementHigh :: elementLow :: rest) ≡ₚ
          elementHigh :: elementLow :: rest).
  by rewrite take_drop.
Qed.

Lemma BinaryInsertionSort_Permutation sorted rest s :
  BinaryInsertionSort comparefn sorted rest = Some s -> s ≡ₚ sorted ++ rest.
Proof.
  revert sorted. induction rest as [|pivot rest IH]; intros sorted Hs; simpl in Hs.
  - simplify_eq. by rewrite app_nil_r.
  - destruct (find_left _ _ _ _ _ _) as [left|]; simplify_eq/=.
    rewrite (IH _ Hs), <- app_assoc. simpl.
    rewrite <- (take_drop left sorted) at 3.
    rewrite <- !app_assoc. f_equiv.
    by rewrite Permutation_middle.
Qed.

Lemma ArrayTimSort_Permutation l s : ArrayTimSort comparefn l = Some s -> s ≡ₚ l.
Proof.
  unfold ArrayTimSort. destruct (length l <? 2)%nat; [by intros; simplify_eq|].
  intros Hs.
  destruct (CountAndMakeRun comparefn l) as [[n w]|] eqn:Hrun; simplify_eq/=.
  rewrite (BinaryInsertionSort_Permutation _ _ _ Hs), take_drop.
  by eapply CountAndMakeRun_Permutation.
Qed.

End EnginePermutation.

Section EngineSortFacts.
Context {A : Type} (comparefn : A -> A -> option number) (key : A -> option Z).
Hypothesis comparefn_order : forall x y s t,
  key x = Some s -> key y = Some t ->
  exists v, comparefn x y = Some v /\ is_nan v = false /\
    negative_number v = (s <? t) /\ SFleb zero v = (t <=? s).

Local Abbreviation tm x := (default 0 (key x)).
Local Abbreviation le_tm := (λ x y, tm x <= tm y).
Local Abbreviation gt_tm := (λ x y, tm y < tm x).
Local Abbreviation valid := (λ y, is_Some (key y)).
Local Abbreviation at_tm t := (λ y, tm y = t).

Lemma SortCompare_order x y :
  valid x -> valid y ->
  exists v, SortCompare comparefn x y = Some v /\
    negative_number v = (tm x <? tm y) /\ SFleb zero v = (tm y <=? tm x).
Proof.
  intros [s Hs] [t Ht].
  destruct (comparefn_order x y s t Hs Ht) as (v & Hv & Hnan & Hneg & Hle).
  exists v. unfold SortCompare. rewrite Hv. simpl. rewrite Hnan, Hs, Ht. done.
Qed.

Lemma extend_run_ascending previous l :
  valid previous -> Forall valid l ->
  exists n, extend_run comparefn false previous l = Some n /\ (n <= length l)%nat /\
    StronglySorted le_tm (previous :: take n l).
Proof.
  intros Hp Hl. revert previous Hp.
  induction Hl as [|current l Hc Hl IH]; intros previous Hp; simpl.
  - exists 0%nat. split; [done|]. split; [lia|repeat constructor].
  - destruct (SortCompare_order current previous Hc Hp) as (v & -> & Hneg & _).
    simpl. rewrite Hneg.
    destruct (Z.ltb_spec (tm current) (tm previous)).
    + exists 0%nat. split; [done|]. split; [lia|repeat constructor].
    + destruct (IH current Hc) as (n & -> & Hn & Hsorted). simpl.
      exists (S n). split; [done|]. split; [lia|].
      simpl. constructor; [done|].
      constructor; [done|].
      apply StronglySorted_inv in Hsorted as [_ Hall].
      eapply Forall_impl; [exact Hall|]. simpl. lia.
Qed.

Lemma extend_run_descending previous l :
  valid previous -> Forall valid l ->
  exists n, extend_run comparefn true previous l = Some n /\ (n <= length l)%nat /\
    StronglySorted gt_tm (previous :: take n l).
Proof.
  intros Hp Hl. revert previous Hp.
  induction Hl as [|current l Hc Hl IH]; intros previous Hp; simpl.
  - exists 0%nat. split; [done|]. split; [lia|repeat constructor].
  - destruct (SortCompare_order current previous Hc Hp) as (v & -> & _ & Hle).
    simpl. rewrite Hle.
    destruct (Z.leb_spec (tm previous) (tm current)).
    + exists 0%nat. split; [done|]. split; [lia|repeat constructor].
    + destruct (IH current Hc) as (n & -> & Hn & Hsorted). simpl.
      exists (S n). split; [done|]. split; [lia|].
      simpl. constructor; [done|].
      constructor; [done|].
      apply StronglySorted_inv in Hsorted as [_ Hall].
      eapply Forall_impl; [exact Hall|]. simpl. lia.
Qed.

(** To reverse a strictly descending run orders it and moves no element
    past one of its own key. *)
Lemma reverse_descending l :
  StronglySorted gt_tm l ->
  StronglySorted le_tm (reverse l) /\
  forall t, filter (at_tm t) (reverse l) = filter (at_tm t) l.
Proof.
  induction 1 as [|x l Hl [IHs IHf] Hx]; [split; [constructor|done]|].
  rewrite reverse_cons. split.
  - apply StronglySorted_app_le; [done|repeat constructor|].
    intros a b Ha ->%list_elem_of_singleton.
    rewrite elem_of_reverse in Ha. rewrite Forall_forall in Hx.
    specialize (Hx a Ha). simpl in Hx. lia.
  - intros t. rewrite filter_app, IHf, filter_cons.
    case_decide as Ht.
    + rewrite filter_cons_True by done. simpl.
      rewrite (filter_none (at_tm t) l); [done|].
      eapply Forall_impl; [exact Hx|]. simpl. lia.
    + rewrite filter_cons_False by done. simpl. by rewrite app_nil_r.
Qed.

Lemma CountAndMakeRun_run workArray :
  Forall valid workArray ->
  exists runLength workArray',
    CountAndMakeRun comparefn workArray = Some (runLength, workArray') /\
    (runLength <= length workArray)%nat /\
    Forall valid workArray' /\
    StronglySorted le_tm (take runLength workArray') /\
    (forall t, filter (at_tm t) (take runLength workArray') =
               filter (at_tm t) (take runLength workArray)) /\
    drop runLength workArray' = drop runLength workArray.
Proof.
  intros Hvalid. unfold CountAndMakeRun.
  destruct workArray as [|elementHigh [|elementLow rest]].
  - exists 0%nat, []. repeat split; try done. constructor.
  - exists 1%nat, [elementHigh]. repeat split; try done. repeat constructor.
  - apply Forall_cons in Hvalid as [HH Hvalid]. pose proof Hvalid as Hvalid'.
    apply Forall_cons in Hvalid as [HL Hrest].
    destruct (SortCompare_order elementLow elementHigh HL HH) as (v & -> & Hneg & _).
    simpl. rewrite Hneg.
    destruct (Z.ltb_spec (tm elementLow) (tm elementHigh)) as [Hlt|Hge].
    + destruct (extend_run_descending elementLow rest HL Hrest) as (n & -> & Hn & Hrun).
      simpl.
      set (run := elementHigh :: elementLow :: take n rest).
      assert (Hdesc : StronglySorted gt_tm run).
      { constructor; [done|]. constructor; [done|].
        apply StronglySorted_inv in Hrun as [_ Hall].
        eapply Forall_impl; [exact Hall|]. simpl. lia. }
      destruct (reverse_descending run Hdesc) as [Hsorted Hfilter].
      assert (Hlen : length (reverse run) = S (S n)).
      { rewrite length_reverse. subst run. simpl. rewrite length_take. lia. }
      eexists _, _. split; [done|]. split; [lia|].
      rewrite take_app_length', drop_app_length' by done.
      split; [|done].
      apply Forall_app. split.
      * apply Forall_reverse. subst run. constructor; [done|].
        constructor; [done|]. by apply Forall_take.
      * by apply Forall_drop.
    + destruct (extend_run_ascending elementLow rest HL Hrest) as (n & -> & Hn & Hrun).
      simpl. eexists _, _. split; [done|]. split; [lia|].
      split; [by constructor|]. split; [|done].
      constructor; [done|]. constructor; [done|].
      apply StronglySorted_inv in Hrun as [_ Hall].
      eapply Forall_impl; [exact Hall|]. simpl. lia.
Qed.

(** The binary search finds the place after the elements that are not
    above the pivot. *)
Lemma find_left_place steps pivot sorted left right :
  valid pivot -> Forall valid sorted -> StronglySorted le_tm sorted ->
  (left <= right <= length sorted)%nat -> (right - left <= steps)%nat ->
  Forall (λ z, tm z <= tm pivot) (take left sorted) ->
  Forall (λ z, tm pivot < tm z) (drop right sorted) ->
  exists k, find_left comparefn steps pivot sorted left right = Some k /\
    Forall (λ z, tm z <= tm pivot) (take k sorted) /\
    Forall (λ z, tm pivot < tm z) (drop k sorted).
Proof.
  intros Hp Hvalid Hsorted. revert left right.
  induction steps as [|steps IH]; intros left right Hlr Hsteps Hleft Hright; simpl.
  - exists left. split; [done|]. split; [done|].
    by replace left with right by lia.
  - destruct (Nat.ltb_spec left right) as [Hlt|Hge].
    + set (mid := (left + Nat.div2 (right - left))%nat).
      assert (Hmid : (left <= mid < right)%nat).
      { subst mid. pose proof (Nat.lt_div2 (right - left)) as Hhalf.
        generalize dependent (Nat.div2 (right - left)). intros; lia. }
      destruct (lookup_lt_is_Some_2 sorted mid) as [y Hy]; [lia|].
      rewrite Hy. simpl.
      assert (Hvy : valid y).
      { rewrite Forall_forall in Hvalid. apply Hvalid. by eapply list_elem_of_lookup_2. }
      destruct (SortCompare_order pivot y Hp Hvy) as (v & -> & Hneg & _).
      simpl. rewrite Hneg.
      destruct (StronglySorted_lookup_le _ sorted mid y Hsorted Hy) as [Hbelow Habove].
      destruct (Z.ltb_spec (tm pivot) (tm y)) as [Hpy|Hyp].
      * apply IH; [lia|lia|done|].
        eapply Forall_impl; [exact Habove|]. simpl. lia.
      * apply IH; [lia|lia| |done].
        eapply Forall_impl; [exact Hbelow|]. simpl. lia.
    + exists left. split; [done|]. split; [done|].
      by replace left with right by lia.
Qed.

(** To insert the pivot at that place keeps the part ordered, and the
    pivot stays behind the elements of its own key. *)
Lemma insert_at_place pivot sorted k :
  StronglySorted le_tm sorted ->
  Forall (λ z, tm z <= tm pivot) (take k sorted) ->
  Forall (λ z, tm pivot < tm z) (drop k sorted) ->
  StronglySorted le_tm (take k sorted ++ pivot :: drop k sorted) /\
  forall t, filter (at_tm t) (take k sorted ++ pivot :: drop k sorted) =
            filter (at_tm t) (sorted ++ [pivot]).
Proof.
  intros Hsorted Hbelow Habove.
  rewrite <- (take_drop k sorted) in Hsorted.
  split.
  - apply StronglySorted_app_le.
    + clear -Hsorted. induction (take k sorted) as [|x l IH]; [constructor|].
      simpl in Hsorted. apply StronglySorted_inv in Hsorted as [Hs Hx].
      constructor; [by apply IH|]. by apply Forall_app in Hx as [? _].
    + constructor.
      * clear -Hsorted. induction (take k sorted) as [|x l IH]; [done|].
        simpl in Hsorted. apply StronglySorted_inv in Hsorted as [Hs _]. by apply IH.
      * eapply Forall_impl; [exact Habove|]. simpl. lia.
    + intros a b Ha [->|Hb]%elem_of_cons.
      * rewrite Forall_forall in Hbelow. by apply Hbelow.
      * rewrite Forall_forall in Hbelow, Habove.
        specialize (Hbelow a Ha). specialize (Habove b Hb). simpl in *. lia.
  - intros t. rewrite <- (take_drop k sorted) at 3.
    rewrite !filter_app, !filter_cons, filter_nil.
    case_decide as Ht.
    + rewrite (filter_none (at_tm t) (drop k sorted)); [by rewrite app_nil_r|].
      eapply Forall_impl; [exact Habove|]. simpl. lia.
    + by rewrite app_nil_r.
Qed.

Lemma BinaryInsertionSort_stable sorted rest :
  Forall valid sorted -> Forall valid rest -> StronglySorted le_tm sorted ->
  exists s, BinaryInsertionSort comparefn sorted rest = Some s /\
    StronglySorted le_tm s /\
    forall t, filter (at_tm t) s = filter (at_tm t) (sorted ++ rest).
Proof.
  intros Hvs Hvr. revert sorted Hvs.
  induction Hvr as [|pivot rest Hp Hvr IH]; intros sorted Hvs Hsorted; simpl.
  - exists sorted. split; [done|]. split; [done|]. by rewrite app_nil_r.
  - destruct (find_left_place (length sorted) pivot sorted 0 (length sorted))
      as (k & -> & Hbelow & Habove); [done|done|done|lia|lia| | |].
    { rewrite take_0. constructor. }
    { rewrite drop_all. constructor. }
    simpl.
    destruct (insert_at_place pivot sorted k Hsorted Hbelow Habove) as [Hs Hf].
    destruct (IH (take k sorted ++ pivot :: drop k sorted)) as (s & -> & Hss & Hsf);
      [|done|].
    { apply Forall_app. split; [by apply Forall_take|].
      constructor; [done|by apply Forall_drop]. }
    exists s. split; [done|]. split; [done|].
    intros t. rewrite Hsf, filter_app, Hf, <- filter_app.
    by rewrite <- app_assoc.
Qed.

(** On keys the comparator orders, the engine's sort returns the stable
    ordering by key. *)
Lemma ArrayTimSort_stable l :
  Forall valid l ->
  exists s, ArrayTimSort comparefn l = Some s /\ StronglySorted le_tm s /\
    forall t, filter (at_tm t) s = filter (at_tm t) l.
Proof.
  intros Hvalid. unfold ArrayTimSort.
  destruct (Nat.ltb_spec (length l) 2) as [Hshort|_].
  - exists l. split; [done|]. split; [|done].
    destruct l as [|x [|y l]]; [constructor|repeat constructor|simpl in Hshort; lia].
  - destruct (CountAndMakeRun_run l Hvalid)
      as (n & w & -> & Hn & Hw & Hsorted & Hfilter & Hdrop).
    simpl.
    destruct (BinaryInsertionSort_stable (take n w) (drop n w))
      as (s & -> & Hs & Hsf); [by apply Forall_take|by apply Forall_drop|done|].
    exists s. split; [done|]. split; [done|].
    intros t. rewrite Hsf, filter_app, Hfilter, Hdrop, <- filter_app.
    by rewrite take_drop.
Qed.

End EngineSortFacts.

Section EngineSeries.
Context {host : Host}.

Local Abbreviation tmP := (λ p : ChartPoint, default 0 (instant (date p))).

Lemma byDate_order (a b : ChartPoint) s t :
  instant (date a) = Some s -> instant (date b) = Some t ->
  exists v, byDate a b = Some v /\ is_nan v = false /\
    negative_number v = (s <? t) /\ SFleb zero v = (t <=? s).
Proof.
  intros Hs Ht.
  destruct (byDate_key a b s t Hs Ht) as (v & Hv & Hnan & _).
  exists v. split; [done|]. split; [done|].
  apply instant_Some in Hs, Ht. unfold byDate in Hv. rewrite Hs, Ht in Hv.
  simpl in Hv. simplify_eq. apply sub_of_Z_order; by eapply newDate_bound.
Qed.

(** On points with valid dates the engine's sort and [sort] return the
    same array. *)
Lemma ArrayTimSort_byDate (l : list ChartPoint) :
  Forall (λ p, is_Some (instant (date p))) l ->
  ArrayTimSort byDate l = sort byDate l.
Proof.
  intros Hvalid.
  destruct (sort_byDate_valid l Hvalid) as (s & -> & _ & Hs & Hsf).
  destruct (ArrayTimSort_stable byDate (λ p, instant (date p)) byDate_order l Hvalid)
    as (s' & -> & Hs' & Hsf').
  f_equal. apply (stable_sorted_unique tmP); [done|done|].
  intros t. by rewrite Hsf, Hsf'.
Qed.

Lemma chartData_with_parts sortfn logsRes forecastRes out :
  chartData_with sortfn logsRes forecastRes = Some out ->
  exists ls fs H0 H F,
    coalesce (GetOpt logsRes "data") (VArray []) = VArray ls /\
    coalesce (GetOpt (GetOpt forecastRes "data") "forecast") (VArray []) = VArray fs /\
    mapM historyPoint ls = Some H0 /\ sortfn byDate H0 = Some H /\
    mapM forecastPoint fs = Some F /\ sortfn byDate (H ++ F) = Some out.
Proof.
  unfold chartData_with, forecastPoints, normalizeHistory, normalizeForecast.
  intros Hout.
  apply bind_Some in Hout as (H0 & HH0 & Hout).
  apply bind_Some in Hout as (H & HH & Hout).
  apply bind_Some in Hout as (F & HF & Hout).
  apply Array_map_array in HH0 as (ls & Hls & HH0).
  apply Array_map_array in HF as (fs & Hfs & HF).
  by exists ls, fs, H0, H, F.
Qed.

(** A series of fewer than 64 points, all with valid dates, is the one
    the V8 engine builds. *)
Lemma chartData_with_ArrayTimSort (logsRes forecastRes : value) (out : list ChartPoint) :
  Forall (λ p, is_Some (instant (date p))) out ->
  (length out < 64)%nat ->
  chartData_with (@ArrayTimSort ChartPoint) logsRes forecastRes = Some out <->
  chartData logsRes forecastRes = Some out.
Proof.
  intros Hvalid _.
  rewrite <- chartData_with_sort. split; intros Hout.
  - apply chartData_with_parts in Hout
      as (ls & fs & H0 & H & F & Hls & Hfs & HH0 & HH & HF & Hmerge).
    assert (HvHF : Forall (λ p, is_Some (instant (date p))) (H ++ F)).
    { by rewrite <- (ArrayTimSort_Permutation _ _ _ Hmerge). }
    assert (HvH0 : Forall (λ p, is_Some (instant (date p))) H0).
    { apply Forall_app in HvHF as [HvH _].
      by rewrite <- (ArrayTimSort_Permutation _ _ _ HH). }
    rewrite ArrayTimSort_byDate in HH, Hmerge by done.
    unfold chartData_with, normalizeHistory, forecastPoints, normalizeForecast.
    rewrite Hls, Hfs. simpl. rewrite HH0. simpl. rewrite HH. simpl.
    rewrite HF. simpl. done.
  - apply chartData_with_parts in Hout
      as (ls & fs & H0 & H & F & Hls & Hfs & HH0 & HH & HF & Hmerge).
    assert (HvHF : Forall (λ p, is_Some (instant (date p))) (H ++ F)).
    { by rewrite <- (sort_Permutation _ _ _ Hmerge). }
    assert (HvH0 : Forall (λ p, is_Some (instant (date p))) H0).
    { apply Forall_app in HvHF as [HvH _]. by rewrite <- (sort_Permutation _ _ _ HH). }
    unfold chartData_with, normalizeHistory, forecastPoints, normalizeForecast.
    rewrite Hls, Hfs. simpl. rewrite HH0. simpl.
    rewrite (ArrayTimSort_byDate H0 HvH0), HH. simpl. rewrite HF. simpl.
    by rewrite (ArrayTimSort_byDate (H ++ F) HvHF).
Qed.

End EngineSeries.

(** * Properties of the login form *)

(** ** The length test *)

Lemma binary_round_normal sx p :
  Zpos p < 2 ^ 53 ->
  exists m e, binary_round prec emax sx p 0 = S754_finite sx m e /\
    -52 <= e <= 0 /\ Zpos m = Zpos p * 2 ^ (- e) /\ 2 ^ 52 <= Zpos m < 2 ^ 53.
Proof.
  intros Hp. unfold binary_round.
  pose proof (digits2_pos_bounds p) as [Hlo Hhi].
  assert (Hd : 1 <= Zpos (digits2_pos p) <= 53).
  { split; [lia|].
    assert (Zpos (digits2_pos p) - 1 < 53); [|lia].
    apply (Z.pow_lt_mono_r_iff 2); lia. }
  replace (fexp prec emax (Zpos (digits2_pos p) + 0)) with (Zpos (digits2_pos p) - 53)
    by (unfold fexp, emin, prec, emax; lia).
  pose proof (shl_align_value p 0 (Zpos (digits2_pos p) - 53)) as Hval.
  pose proof (shl_align_digits p 0 (Zpos (digits2_pos p) - 53)) as Hdig.
  assert (Hez : snd (shl_align p 0 (Zpos (digits2_pos p) - 53)) = Zpos (digits2_pos p) - 53).
  { unfold shl_align. destruct (Zpos (digits2_pos p) - 53 - 0) eqn:E; simpl; lia. }
  destruct (shl_align p 0 _) as [mz ez]. simpl in Hval, Hdig, Hez. subst ez.
  assert (Hmz : Zpos (digits2_pos mz) = 53) by lia.
  exists mz, (Zpos (digits2_pos p) - 53).
  rewrite binary_round_aux_canonical by lia.
  split; [reflexivity|]. split; [lia|]. split.
  - rewrite Hval by lia. reflexivity.
  - pose proof (digits2_pos_bounds mz) as Hb. rewrite Hmz in Hb. exact Hb.
Qed.

Lemma SFltb_finite m e c k :
  SFltb (S754_finite false m e) (S754_finite false c k) =
    match e ?= k with
    | Lt => true
    | Gt => false
    | Eq => Zpos m <? Zpos c
    end.
Proof.
  unfold SFltb, SFcompare. destruct (e ?= k); reflexivity.
Qed.

Lemma of_Z_8 : of_Z 8 = S754_finite false 4503599627370496 (-49).
Proof. vm_compute. reflexivity. Qed.

(** The comparison of a length with 8, as numbers. *)
Lemma of_Z_lt_8 a :
  0 <= a < 2 ^ 53 -> SFltb (of_Z a) (of_Z 8) = (a <? 8).
Proof.
  intros Ha. rewrite of_Z_8. destruct a as [|p|p]; [reflexivity| |lia].
  destruct (binary_round_normal false p) as (m & e & Hof & He & Hm & Hnorm); [lia|].
  change (of_Z (Zpos p)) with (binary_round prec emax false p 0). rewrite Hof.
  rewrite SFltb_finite.
  assert (H52 : 2 ^ 52 = 4503599627370496) by reflexivity.
  assert (H53 : 2 ^ 53 = 9007199254740992) by reflexivity.
  destruct (Z.compare_spec e (-49)) as [->|Hlt|Hgt].
  - assert (H49 : 2 ^ (- -49) = 562949953421312) by reflexivity.
    rewrite H49 in Hm.
    destruct (Z.ltb_spec (Zpos m) 4503599627370496), (Z.ltb_spec (Zpos p) 8);
      (reflexivity || lia).
  - symmetry. apply Z.ltb_lt.
    assert (2 ^ 50 <= 2 ^ (- e)) by (apply Z.pow_le_mono_r; lia).
    assert (H50 : 2 ^ 50 = 1125899906842624) by reflexivity.
    nia.
  - symmetry. apply Z.ltb_ge.
    assert (2 ^ (- e) <= 2 ^ 48) by (apply Z.pow_le_mono_r; lia).
    assert (H48 : 2 ^ 48 = 281474976710656) by reflexivity.
    assert (0 < 2 ^ (- e)) by (apply Z.pow_pos_nonneg; lia).
    nia.
Qed.

Module LoginFacts.
Import Login.

(** ** Strings *)

Lemma includes_at_cons c s :
  includes (String c s) "@" = Ascii.eqb c at_sign || includes s "@".
Proof.
  cbn [includes String.prefix].
  match goal with
  | |- context [Ascii.ascii_dec ?a c] => destruct (Ascii.ascii_dec a c) as [<-|Hne]
  end.
  - by destruct s.
  - destruct (Ascii.eqb_spec c at_sign) as [->|_]; [by destruct Hne|]. done.
Qed.

Lemma is_space_not_at c : is_space c = true -> Ascii.eqb c at_sign = false.
Proof. destruct c as [[] [] [] [] [] [] [] []]; vm_compute; congruence. Qed.

Lemma includes_trimStart s : includes (trimStart s) "@" = includes s "@".
Proof.
  induction s as [|c s IH]; [done|].
  cbn [trimStart]. destruct (is_space c) eqn:Hc; [|done].
  by rewrite IH, includes_at_cons, (is_space_not_at c Hc).
Qed.

Lemma includes_trimEnd s : includes (trimEnd s) "@" = includes s "@".
Proof.
  induction s as [|c s IH]; [done|].
  cbn [trimEnd]. rewrite (includes_at_cons c s), <- IH.
  destruct (trimEnd s) as [|c' t].
  - destruct (is_space c) eqn:Hc.
    + by rewrite (is_space_not_at c Hc).
    + by rewrite includes_at_cons.
  - by rewrite includes_at_cons.
Qed.

(** Trimming keeps the [@] of an email. *)
Lemma includes_trim s : includes (trim s) "@" = includes s "@".
Proof. unfold trim. by rewrite includes_trimEnd, includes_trimStart. Qed.

Lemma includes_empty : includes "" "@" = false.
Proof. reflexivity. Qed.

Section Validation.
Context {host : Host}.

(** X9.  For an email and a password typed as strings, the validation
    reports the email first, when it has no [@]; the password next,
    when it has fewer than 8 characters; and passes otherwise. *)
Theorem clientValidate_strings (e p : string) :
  Z.of_nat (String.length p) < 2 ^ 53 ->
  clientValidate (VString e) (VString p) =
    Some (if negb (includes e "@") then emailMessage
          else if (String.length p <? 8)%nat then passwordMessage
          else VNull).
Proof.
  intros Hlen. unfold clientValidate. simpl ToBoolean.
  assert (He : (negb (negb (String.eqb e "")) || negb (includes e "@")) = negb (includes e "@")).
  { destruct (String.eqb_spec e "") as [->|_]; [done|]. done. }
  rewrite He. destruct (negb (includes e "@")); [done|].
  destruct (String.eqb_spec p "") as [->|Hp]; [done|].
  simpl. unfold less_than. simpl. unfold MIN_PASSWORD_LENGTH.
  rewrite of_Z_lt_8 by lia.
  replace (Z.of_nat (String.length p) <? 8) with (String.length p <? 8)%nat; [done|].
  destruct (Nat.ltb_spec (String.length p) 8), (Z.ltb_spec (Z.of_nat (String.length p)) 8);
    (done || lia).
Qed.

(** A form that passes the validation holds an email string with an
    [@]. *)
Lemma clientValidate_passed em pw v :
  clientValidate em pw = Some v -> ToBoolean v = false ->
  exists s, em = VString s /\ includes s "@" = true.
Proof.
  unfold clientValidate. intros Hv Hfalsy.
  destruct em as [| |b|n|s|xs|props]; cbn [ToBoolean] in Hv;
    rewrite ?orb_true_r in Hv; try (cbn in Hv; by simplify_eq).
  destruct (negb (negb (String.eqb s "")) || negb (includes s "@")) eqn:Hbad.
  - by simplify_eq.
  - exists s. split; [done|].
    apply orb_false_elim in Hbad as [_ Hinc]. by apply negb_false_iff in Hinc.
Qed.

End Validation.

(** ** The submit handler *)

Section Submit.
Context {host : Host}.
Context (api : request -> settled) (onLogin : value -> value -> option value)
  (TypeError : value).

Local Abbreviation submit := (handleSubmit api onLogin TypeError).

Lemma shown_error_truthy err : ToBoolean (shown_error err) = true.
Proof.
  unfold shown_error.
  generalize (or_value (or_value (GetOpt (GetOpt (GetOpt err "response") "data") "error")
                          (GetOpt (GetOpt (GetOpt err "response") "data") "message"))
                (GetOpt err "message")).
  intros x. unfold or_value.
  destruct (ToBoolean x) eqn:Hx; [exact Hx|reflexivity].
Qed.

Lemma shown_error_no_token : shown_error (Error noTokenMessage) = noTokenMessage.
Proof. reflexivity. Qed.

(** The handler on a form that passed the validation, by how the
    request settles. *)
Lemma handleSubmit_passed st s v :
  email st = VString s ->
  clientValidate (email st) (password st) = Some v -> ToBoolean v = false ->
  submit st =
    let r := request_of st (trim s) in
    match api r with
    | Rejected err => ((settled_form st (shown_error err), [Called r]), inl tt)
    | Fulfilled res =>
        let token := GetOpt (GetOpt res "data") "token" in
        let user := user_of res (trim s) in
        if ToBoolean token then
          match onLogin token user with
          | None => ((settled_form st (VString ""), [Called r; OnLogin token user]), inl tt)
          | Some err =>
              ((settled_form st (shown_error err), [Called r; OnLogin token user]), inl tt)
          end
        else ((settled_form st noTokenMessage, [Called r]), inl tt)
    end.
Proof.
  intros Hs Hv Hfalsy.
  destruct st as [il em pw hb cl rb er ld].
  cbv [Login.email Login.password] in Hs, Hv. subst em.
  cbv [handleSubmit mbind Act_bind setError fst snd
       Login.isLogin Login.email Login.password Login.hobby_top1 Login.club_top1
       Login.reads_books Login.error Login.loading].
  rewrite Hv, Hfalsy.
  cbv [mbind Act_bind mret Act_ret setError setLoading try_catch_finally submit_try
       submit_catch trimmed await emit throw request_of user_of settled_form
       shown_error fst snd app
       Login.isLogin Login.email Login.password Login.hobby_top1 Login.club_top1
       Login.reads_books Login.error Login.loading].
  destruct il.
  - destruct (api _) as [res|err]; [|reflexivity].
    destruct (nullish (GetOpt (GetOpt res "data") "email"));
      destruct (ToBoolean (GetOpt (GetOpt res "data") "token")); try reflexivity;
      cbv [negb]; destruct (onLogin _ _); reflexivity.
  - destruct (api _) as [res|err]; [|reflexivity].
    destruct (nullish (GetOpt (GetOpt res "data") "email"));
      destruct (ToBoolean (GetOpt (GetOpt res "data") "token")); try reflexivity;
      cbv [negb]; destruct (onLogin _ _); reflexivity.
Qed.

(** X10.  A form that fails the validation is not submitted: no request
    is sent, [onLogin] is not called, [loading] is not touched, and the
    error shown is the validation message. *)
Theorem handleSubmit_invalid (st : Form) (msg : value) :
  clientValidate (email st) (password st) = Some msg -> ToBoolean msg = true ->
  submit st =
    (({| isLogin := isLogin st; email := email st; password := password st;
         hobby_top1 := hobby_top1 st; club_top1 := club_top1 st;
         reads_books := reads_books st; error := msg; loading := loading st |},
      []), inl tt).
Proof.
  intros Hv Htruthy.
  destruct st as [il em pw hb cl rb er ld].
  cbv [Login.email Login.password] in Hv.
  cbv [handleSubmit mbind Act_bind setError fst snd
       Login.isLogin Login.email Login.password Login.hobby_top1 Login.club_top1
       Login.reads_books Login.error Login.loading].
  rewrite Hv, Htruthy. reflexivity.
Qed.

(** X11.  A form that passes the validation sends one request and no
    more.  The request carries the email trimmed, which still has its
    [@], and the password as typed; when the handler ends [loading] is
    off. *)
Theorem handleSubmit_request (st : Form) (v : value) :
  clientValidate (email st) (password st) = Some v -> ToBoolean v = false ->
  exists s st' rest,
    email st = VString s /\ includes (trim s) "@" = true /\
    submit st = ((st', Called (request_of st (trim s)) :: rest), inl tt) /\
    Forall (λ e, ~ is_Called e) rest /\ loading st' = false.
Proof.
  intros Hv Hfalsy.
  destruct (clientValidate_passed _ _ _ Hv Hfalsy) as (s & Hs & Hat).
  exists s. rewrite (handleSubmit_passed st s v Hs Hv Hfalsy). cbv zeta.
  rewrite includes_trim.
  destruct (api _) as [res|err].
  - destruct (ToBoolean (GetOpt (GetOpt res "data") "token")).
    + destruct (onLogin _ _); eexists _, _;
        (split; [done|]); (split; [done|]); (split; [reflexivity|]);
        (split; [|reflexivity]); constructor; [tauto|constructor|tauto|constructor].
    + eexists _, _. split; [done|]. split; [done|]. split; [reflexivity|].
      split; [constructor|reflexivity].
  - eexists _, _. split; [done|]. split; [done|]. split; [reflexivity|].
    split; [constructor|reflexivity].
Qed.

(** X12.  [onLogin] is called only with a token: whenever it is called,
    the form had passed the validation, the request was fulfilled, and
    the token passed on is the truthy [data.token] of the response, with
    the user built from that response. *)
Theorem onLogin_needs_token (st st' : Form) (evs : list event) (out : unit + value)
    (token user : value) :
  submit st = ((st', evs), out) -> OnLogin token user ∈ evs ->
  ToBoolean token = true /\
  exists s res,
    email st = VString s /\ includes s "@" = true /\
    api (request_of st (trim s)) = Fulfilled res /\
    token = GetOpt (GetOpt res "data") "token" /\ user = user_of res (trim s).
Proof.
  intros Hrun Hin.
  destruct (clientValidate (email st) (password st)) as [v|] eqn:Hv.
  - destruct (ToBoolean v) eqn:Hb.
    + rewrite (handleSubmit_invalid st v Hv Hb) in Hrun. simplify_eq.
      by apply elem_of_nil in Hin.
    + destruct (clientValidate_passed _ _ _ Hv Hb) as (s & Hs & Hat).
      rewrite (handleSubmit_passed st s v Hs Hv Hb) in Hrun. cbv zeta in Hrun.
      destruct (api _) as [res|err] eqn:Hapi.
      * destruct (ToBoolean (GetOpt (GetOpt res "data") "token")) eqn:Htok.
        -- assert (Hevs : evs = [Called (request_of st (trim s));
                                 OnLogin (GetOpt (GetOpt res "data") "token")
                                         (user_of res (trim s))]).
           { by destruct (onLogin _ _); simplify_eq. }
           subst evs.
           apply elem_of_cons in Hin as [Hin|Hin]; [done|].
           apply list_elem_of_singleton in Hin. simplify_eq.
           split; [done|]. by exists s, res.
        -- simplify_eq. apply list_elem_of_singleton in Hin. done.
      * simplify_eq. apply list_elem_of_singleton in Hin. done.
  - exfalso. revert Hrun Hin.
    destruct st as [il em pw hb cl rb er ld].
    cbv [Login.email Login.password] in Hv.
    cbv [handleSubmit mbind Act_bind setError fst snd
         Login.isLogin Login.email Login.password Login.hobby_top1 Login.club_top1
         Login.reads_books Login.error Login.loading].
    rewrite Hv. cbv [throw]. intros Hrun Hin. simplify_eq.
    by apply elem_of_nil in Hin.
Qed.

(** X13.  A submit that passed the validation ends with [loading] off
    and never in silence: either [onLogin] was called and returned, and
    the error shown is empty, or an error text is shown (a truthy value)
    and no call of [onLogin] returned. *)
Theorem handleSubmit_settles (st : Form) (v : value) :
  clientValidate (email st) (password st) = Some v -> ToBoolean v = false ->
  exists st' evs,
    submit st = ((st', evs), inl tt) /\ loading st' = false /\
    ((error st' = VString "" /\
      exists token user, OnLogin token user ∈ evs /\ onLogin token user = None) \/
     (ToBoolean (error st') = true /\
      forall token user, OnLogin token user ∈ evs -> onLogin token user <> None)).
Proof.
  intros Hv Hfalsy.
  destruct (clientValidate_passed _ _ _ Hv Hfalsy) as (s & Hs & Hat).
  rewrite (handleSubmit_passed st s v Hs Hv Hfalsy). cbv zeta.
  destruct (api _) as [res|err].
  - destruct (ToBoolean (GetOpt (GetOpt res "data") "token")) eqn:Htok.
    + destruct (onLogin _ _) as [err|] eqn:Hcb.
      * eexists _, _. split; [done|]. split; [done|]. right.
        split; [apply shown_error_truthy|].
        intros token user Hin.
        apply elem_of_cons in Hin as [Hin|Hin]; [done|].
        apply list_elem_of_singleton in Hin. simplify_eq. by rewrite Hcb.
      * eexists _, _. split; [done|]. split; [done|]. left.
        split; [done|]. eexists _, _. split; [|exact Hcb]. right. left.
    + eexists _, _. split; [done|]. split; [done|]. right. split; [done|].
      intros token user Hin. apply list_elem_of_singleton in Hin. done.
  - eexists _, _. split; [done|]. split; [done|]. right.
    split; [apply shown_error_truthy|].
    intros token user Hin. apply list_elem_of_singleton in Hin. done.
Qed.

(** X14.  When the request is fulfilled by a response without a token
    (none, or a falsy one), [onLogin] is not called and the error shown
    is "Authentication failed: no token received.". *)
Theorem handleSubmit_no_token (st : Form) (v : value) (s : string) (res : value) :
  clientValidate (email st) (password st) = Some v -> ToBoolean v = false ->
  email st = VString s ->
  api (request_of st (trim s)) = Fulfilled res ->
  ToBoolean (GetOpt (GetOpt res "data") "token") = false ->
  submit st =
    ((settled_form st noTokenMessage, [Called (request_of st (trim s))]), inl tt).
Proof.
  intros Hv Hfalsy Hs Hapi Htok.
  rewrite (handleSubmit_passed st s v Hs Hv Hfalsy). cbv zeta.
  by rewrite Hapi, Htok.
Qed.

End Submit.

End LoginFacts.

(** * The properties on concrete data

    The engine is [exampleHost]. *)

Ltac is_Some_by_evaluation := eexists; vm_compute; reflexivity.

(** The spec's scenario. *)
Example scenario_chart :
  chartData (response one_log) (response bundle_80) =
  Some [ {| date := VString "2024-01-01"; hours := of_Z 2; min := of_Z 2;
            max := of_Z 2; type := History |};
         {| date := VString "2024-01-02"; hours := of_Z 3; min := of_Z 2;
            max := of_Z 4; type := Forecast |} ].
Proof. vm_compute. reflexivity. Qed.

Example scenario_summary :
  summarize bundle_80 =
  Some (NextForecast (ranged "2024-01-02" (num 3) (num 2) (num 4)) (Some (of_Z 80))).
Proof. vm_compute. reflexivity. Qed.

(** [merge_length_sorted] on a history point dated after a forecast point. *)
Lemma merge_length_sorted_witness :
  exists out,
    merge [ {| date := VString "2024-01-02"; hours := of_Z 2; min := of_Z 2;
               max := of_Z 2; type := History |} ]
          [ {| date := VString "2024-01-01"; hours := of_Z 3; min := of_Z 2;
               max := of_Z 4; type := Forecast |} ] = Some out /\
    length out = 2%nat /\ StronglySorted no_later out.
Proof.
  destruct (merge_length_sorted
    [ {| date := VString "2024-01-02"; hours := of_Z 2; min := of_Z 2;
         max := of_Z 2; type := History |} ]
    [ {| date := VString "2024-01-01"; hours := of_Z 3; min := of_Z 2;
         max := of_Z 4; type := Forecast |} ]) as (out & Hout & _ & Hlen & Hsorted).
  - repeat constructor; is_Some_by_evaluation.
  - exists out. split; [exact Hout|]. split; [exact Hlen|].
    apply Hsorted. repeat constructor; is_Some_by_evaluation.
Defined.

(** C2 as stated fails: a duration that coerces to Infinity gives a
    history point whose [hours], [min] and [max] are not finite. *)
Lemma normalizeHistory_infinite :
  exists p, normalizeHistory (VArray [infinite_entry]) = Some [p] /\
    is_finite (hours p) = false /\ is_finite (min p) = false /\
    is_finite (max p) = false.
Proof. eexists. vm_compute. repeat split; reflexivity. Qed.

(** [normalize_not_nan] on the log of the scenario and on the point
    with lower bound 0. *)
Lemma normalize_not_nan_witness :
  Forall (λ p, is_nan (hours p) = false /\ min p = hours p /\ max p = hours p)
    [ {| date := VString "2024-01-01"; hours := of_Z 2; min := of_Z 2;
         max := of_Z 2; type := History |} ] /\
  Forall (λ p, is_nan (hours p) = false /\ is_nan (min p) = false /\
               is_nan (max p) = false)
    [ {| date := VString "2024-03-05"; hours := of_Z 3; min := of_Z 3;
         max := of_Z 4; type := Forecast |} ].
Proof.
  split.
  - apply (proj1 (normalize_not_nan one_log _)). vm_compute. reflexivity.
  - apply (proj2 (normalize_not_nan (VArray [zero_min_point]) _)). vm_compute. reflexivity.
Defined.

(** C3, at the input where the code departs from it: a forecast point
    with hours 3 and range 0 to 4 gets [min = 3], the fallback to [hours],
    and not the lower bound 0; [max] is the upper bound 4. *)
Theorem forecastPoint_zero_min :
  exists p, forecastPoint zero_min_point = Some p /\
    hours p = of_Z 3 /\ min p = of_Z 3 /\ min p <> of_Z 0 /\ max p = of_Z 4.
Proof. eexists. vm_compute. repeat split; try reflexivity. discriminate. Qed.

(** C4, at the input where the code departs from it: for a bundle of
    confidence 0 the card shows the dash, as it does for a bundle without
    confidence, and not 0%. *)
Theorem summarize_zero_confidence :
  summarize bundle_0 =
    Some (NextForecast (ranged "2024-01-02" (num 3) (num 2) (num 4)) None) /\
  confidencePercent bundle_0 = confidencePercent (VObject []).
Proof. vm_compute. split; reflexivity. Qed.

(** C5 as stated fails: with the forecast request rejected, the stats
    that were delivered are not shown and no series is built from the
    logs that were delivered. *)
Lemma loadData_one_rejected :
  loadData (Fulfilled (response stats_5)) (Rejected VUndefined)
           (Fulfilled (response one_log)) initialState =
    {| stats := defaultStats; forecast := VNull; logs := []; loading := false |} /\
  GetOpt (response stats_5) "data" <> defaultStats /\
  exists p, chartData (response one_log) VUndefined = Some [p].
Proof.
  split; [vm_compute; reflexivity|]. split; [discriminate|].
  eexists. vm_compute. reflexivity.
Qed.

(** [loadData_sources] on a rejected forecast request, and on a stats
    response without data. *)
Lemma loadData_sources_witness :
  loadData (Fulfilled (response stats_5)) (Rejected VUndefined)
           (Fulfilled (response one_log)) initialState =
    {| stats := defaultStats; forecast := VNull; logs := []; loading := false |} /\
  loadData (Fulfilled VUndefined) (Fulfilled (response bundle_80))
           (Fulfilled (response one_log)) initialState =
    {| stats := defaultStats; forecast := bundle_80;
       logs := default [] (chartData (response one_log) (response bundle_80));
       loading := false |}.
Proof.
  split.
  - apply (proj1 (loadData_sources _ _ _ initialState)). right. left. exact I.
  - apply (proj2 (loadData_sources _ _ _ initialState) VUndefined
             (response bundle_80) (response one_log)); reflexivity.
Defined.

(** C6, at the input where the code departs from it: for a string that
    is no date [formatDate] returns the text [Invalid Date] and not the
    input. *)
Theorem formatDate_not_a_date :
  formatDate (VString "not a date") = VString "Invalid Date" /\
  formatDate (VString "not a date") <> VString "not a date".
Proof. split; [vm_compute; reflexivity|discriminate]. Qed.

(** [summarize_absent] on a bundle with an empty forecast. *)
Lemma summarize_absent_witness :
  nextForecast (VObject [("forecast", VArray [])]) = Some VNull /\
  summarize (VObject [("forecast", VArray [])]) = Some NoForecast.
Proof. apply summarize_absent. right. right. reflexivity. Defined.

(** [nextForecast_earliest] on the two points out of order. *)
Lemma nextForecast_earliest_witness :
  exists l1 p l2 t,
    unordered = l1 ++ p :: l2 /\ rawInstant p = Some t /\
    nextForecast (VObject [("forecast", VArray unordered)]) = Some p /\
    summarize (VObject [("forecast", VArray unordered)]) =
      (c ← confidencePercent (VObject [("forecast", VArray unordered)]);
       Some (NextForecast p c)) /\
    Forall (λ q, exists u, rawInstant q = Some u /\ t < u) l1 /\
    Forall (λ q, exists u, rawInstant q = Some u /\ t <= u) l2 /\
    forall bundle' fcArr' p',
      GetOpt bundle' "forecast" = VArray fcArr' -> fcArr' ≡ₚ unordered ->
      nextForecast bundle' = Some p' -> rawInstant p' = Some t.
Proof.
  apply nextForecast_earliest.
  - reflexivity.
  - discriminate.
  - repeat constructor; is_Some_by_evaluation.
Defined.

(** The point selected from the spec's example is the one of March 1. *)
Example nextForecast_unordered :
  nextForecast (VObject [("forecast", VArray unordered)]) =
  Some (point "2024-03-01" (num 2)).
Proof. vm_compute. reflexivity. Qed.

(** Sorting the bundle's own array would have reordered it. *)
Example sort_in_place_reorders :
  (sort_in_place byDateRaw 1%positive {[ 1%positive := unordered ]}).1 !! 1%positive
  = Some (reverse unordered).
Proof. vm_compute. reflexivity. Qed.

Example nextForecast_of_keeps :
  (nextForecast_of 1%positive {[ 1%positive := unordered ]}).1 !! 1%positive
  = Some unordered.
Proof. vm_compute. reflexivity. Qed.

(** [chartData_history_before_forecast] on a history point and a
    forecast point of the same day. *)
Lemma chartData_history_before_forecast_witness :
  chartData (response same_day_logs) (response same_day_bundle) =
    Some [ {| date := VString "2024-01-01"; hours := of_Z 2; min := of_Z 2;
              max := of_Z 2; type := Forecast |};
           {| date := VString "2024-01-02"; hours := of_Z 1; min := of_Z 1;
              max := of_Z 1; type := History |};
           {| date := VString "2024-01-02"; hours := of_Z 3; min := of_Z 3;
              max := of_Z 3; type := Forecast |} ] /\
  (1 < 2)%nat.
Proof.
  assert (Hout : chartData (response same_day_logs) (response same_day_bundle) =
    Some [ {| date := VString "2024-01-01"; hours := of_Z 2; min := of_Z 2;
              max := of_Z 2; type := Forecast |};
           {| date := VString "2024-01-02"; hours := of_Z 1; min := of_Z 1;
              max := of_Z 1; type := History |};
           {| date := VString "2024-01-02"; hours := of_Z 3; min := of_Z 3;
              max := of_Z 3; type := Forecast |} ])
    by (vm_compute; reflexivity).
  split; [exact Hout|].
  eapply (chartData_history_before_forecast _ _ _ 1 2); [exact Hout| | | | | |].
  - repeat constructor; is_Some_by_evaluation.
  - reflexivity.
  - reflexivity.
  - reflexivity.
  - reflexivity.
  - vm_compute. reflexivity.
Defined.

(** C10 as stated fails when another date of the series does not parse.
    The comparator answers NaN for the log dated "not a date", which
    keeps the log of 3 January behind the one of 4 January; the sort of
    the V8 engine then places the forecast point of 3 January before the
    fourth element, and so before the history point of the same day. *)
Lemma chartData_unparseable_date :
  chartData_with (@ArrayTimSort ChartPoint)
      (response late_logs) (response overlapping_bundle) =
    Some [ logged "2024-01-01"; logged "2024-01-02"; predicted "2024-01-02";
           predicted "2024-01-03"; logged "2024-01-04"; logged "not a date";
           logged "2024-01-03" ] /\
  instant (date (predicted "2024-01-03")) = instant (date (logged "2024-01-03")) /\
  is_Some (instant (date (logged "2024-01-03"))).
Proof. split; [vm_compute; reflexivity|]. split; [reflexivity|is_Some_by_evaluation]. Qed.

(** On that input the order is the engine's choice: the insertion sort
    keeps every history point before the forecast point of its day. *)
Example chartData_late_logs_insertion :
  chartData (response late_logs) (response overlapping_bundle) =
    Some [ logged "2024-01-01"; logged "2024-01-02"; logged "2024-01-04";
           logged "not a date"; predicted "2024-01-02"; logged "2024-01-03";
           predicted "2024-01-03" ].
Proof. vm_compute. reflexivity. Qed.

(** ** The further properties on concrete data *)

(** [chartData_length] on the scenario: one log and one forecast point. *)
Lemma chartData_length_witness :
  exists ls fs,
    coalesce (GetOpt (response one_log) "data") (VArray []) = VArray ls /\
    coalesce (GetOpt (GetOpt (response bundle_80) "data") "forecast") (VArray [])
      = VArray fs /\
    length [history_2; forecast_3] = (length ls + length fs)%nat.
Proof. apply (chartData_length _ _ _ scenario_chart). Defined.

(** [normalizeHistory_entries] on an entry without duration and one
    with the duration ["2"]. *)
Lemma normalizeHistory_entries_witness :
  exists ps,
    normalizeHistory (VArray (VObject <$>
      [[("date", VString "2024-01-01")];
       [("date", VString "2024-01-02"); ("duration", VString "2")]])) = Some ps /\
    Forall2 (λ props p,
      date p = own_property "date" props /\ type p = History /\
      exists n, Number (own_property "duration" props) = Some n /\
        hours p = (if truthy n then n else zero))
      [[("date", VString "2024-01-01")];
       [("date", VString "2024-01-02"); ("duration", VString "2")]] ps.
Proof. apply normalizeHistory_entries. repeat constructor. Defined.

(** The entry without duration becomes a point of 0 hours. *)
Example normalizeHistory_missing_duration :
  normalizeHistory (VArray [VObject [("date", VString "2024-01-01")]]) =
  Some [ {| date := VString "2024-01-01"; hours := zero; min := zero; max := zero;
            type := History |} ].
Proof. vm_compute. reflexivity. Qed.

(** [hasForecast_chartData] on the scenario: the band is drawn. *)
Lemma hasForecast_chartData_witness :
  exists fs,
    coalesce (GetOpt (GetOpt (response bundle_80) "data") "forecast") (VArray [])
      = VArray fs /\
    hasForecast [history_2; forecast_3] = (0 <? length fs)%nat.
Proof. apply (hasForecast_chartData _ _ _ scenario_chart). Defined.

(** [chartCard_loaded] on a first load with the forecast request
    rejected. *)
Lemma chartCard_loaded_witness :
  chartCard (loadData (Fulfilled (response stats_5)) (Rejected VUndefined)
               (Fulfilled (response one_log)) initialState) = NoData.
Proof.
  apply (proj2 (chartCard_loaded (Fulfilled (response stats_5)) (Rejected VUndefined)
                  (Fulfilled (response one_log)) initialState)).
  right. left. exact I.
Defined.

(** [merge_idempotent] on the series of the scenario. *)
Lemma merge_idempotent_witness :
  merge [history_2; forecast_3] [] = Some [history_2; forecast_3].
Proof.
  apply (merge_idempotent [history_2] [forecast_3]).
  - repeat constructor; is_Some_by_evaluation.
  - vm_compute. reflexivity.
Defined.

(** [chartData_direct] on the scenario. *)
Lemma chartData_direct_witness :
  exists out,
    chartData (response one_log) (response bundle_80) = Some out /\
    merge [history_2] [forecast_3] = Some out.
Proof.
  apply chartData_direct.
  - vm_compute. reflexivity.
  - vm_compute. reflexivity.
  - repeat constructor; is_Some_by_evaluation.
Defined.

(** [nextForecast_first_in_chart] on the scenario. *)
Lemma nextForecast_first_in_chart_witness :
  exists x p,
    nextForecast (GetOpt (response bundle_80) "data") = Some x /\
    forecastPoint x = Some p /\
    head (filter (λ q, type q = Forecast) [history_2; forecast_3]) = Some p.
Proof.
  apply (nextForecast_first_in_chart (response one_log) (response bundle_80)
           [ranged "2024-01-02" (num 3) (num 2) (num 4)]).
  - reflexivity.
  - discriminate.
  - exact scenario_chart.
  - repeat constructor; is_Some_by_evaluation.
Defined.

(** [card_bounds_match_chart] on the scenario: the card shows 2 and 4,
    the bounds of the chart point. *)
Lemma card_bounds_match_chart_witness :
  minText card_80 = Localized (min forecast_3) (VNumber (of_Z 1)) /\
  min forecast_3 = of_Z 2 /\
  maxText card_80 = Localized (max forecast_3) (VNumber (of_Z 1)) /\
  max forecast_3 = of_Z 4.
Proof.
  apply (card_bounds_match_chart bundle_80 (ranged "2024-01-02" (num 3) (num 2) (num 4)));
    vm_compute; reflexivity.
Defined.

(** [clientValidate_strings] on a password of 13 characters. *)
Lemma clientValidate_strings_witness :
  Login.clientValidate (VString " ada@example.org ") (VString "correct horse") =
    Some (if negb (Login.includes " ada@example.org " "@") then Login.emailMessage
          else if (String.length "correct horse" <? 8)%nat then Login.passwordMessage
          else VNull).
Proof. apply LoginFacts.clientValidate_strings. vm_compute. reflexivity. Defined.

(** [handleSubmit_invalid] on a password of 5 characters. *)
Lemma handleSubmit_invalid_witness :
  Login.handleSubmit accepting_api returning_onLogin VUndefined short_form =
    (({| Login.isLogin := true; Login.email := VString "ada@example.org";
         Login.password := VString "short";
         Login.hobby_top1 := VString "general"; Login.club_top1 := VString "general";
         Login.reads_books := VBool false; Login.error := Login.passwordMessage;
         Login.loading := false |}, []), inl tt).
Proof.
  apply (LoginFacts.handleSubmit_invalid accepting_api returning_onLogin VUndefined
           short_form Login.passwordMessage); vm_compute; reflexivity.
Defined.

(** [handleSubmit_request] on the form with spaces around the email. *)
Lemma handleSubmit_request_witness :
  exists s st' rest,
    Login.email ada_form = VString s /\ Login.includes (Login.trim s) "@" = true /\
    Login.handleSubmit accepting_api returning_onLogin VUndefined ada_form =
      ((st', Login.Called (Login.request_of ada_form (Login.trim s)) :: rest), inl tt) /\
    Forall (λ e, ~ Login.is_Called e) rest /\ Login.loading st' = false.
Proof.
  apply (LoginFacts.handleSubmit_request accepting_api returning_onLogin VUndefined
           ada_form VNull); vm_compute; reflexivity.
Defined.

(** The request of that form carries the email without the spaces. *)
Example handleSubmit_trims :
  Login.handleSubmit accepting_api returning_onLogin VUndefined ada_form =
    (({| Login.isLogin := true; Login.email := VString " ada@example.org ";
         Login.password := VString "correct horse";
         Login.hobby_top1 := VString "general"; Login.club_top1 := VString "general";
         Login.reads_books := VBool false; Login.error := VString "";
         Login.loading := false |},
      [Login.Called (Login.LoginRequest (VString "ada@example.org") (VString "correct horse"));
       Login.OnLogin (VString "t0")
         (VObject [("userId", num 7); ("email", VString "ada@example.org")])]),
     inl tt).
Proof. vm_compute. reflexivity. Qed.

(** [onLogin_needs_token] on the call that form leads to. *)
Lemma onLogin_needs_token_witness :
  ToBoolean (VString "t0") = true /\
  exists s res,
    Login.email ada_form = VString s /\ Login.includes s "@" = true /\
    accepting_api (Login.request_of ada_form (Login.trim s)) = Fulfilled res /\
    VString "t0" = GetOpt (GetOpt res "data") "token" /\
    VObject [("userId", num 7); ("email", VString "ada@example.org")]
      = Login.user_of res (Login.trim s).
Proof.
  eapply (LoginFacts.onLogin_needs_token accepting_api returning_onLogin VUndefined
            ada_form).
  - exact handleSubmit_trims.
  - right. left.
Defined.

(** [handleSubmit_settles] on the same form. *)
Lemma handleSubmit_settles_witness :
  exists st' evs,
    Login.handleSubmit accepting_api returning_onLogin VUndefined ada_form
      = ((st', evs), inl tt) /\
    Login.loading st' = false /\
    ((Login.error st' = VString "" /\
      exists token user, Login.OnLogin token user ∈ evs /\
        returning_onLogin token user = None) \/
     (ToBoolean (Login.error st') = true /\
      forall token user, Login.OnLogin token user ∈ evs ->
        returning_onLogin token user <> None)).
Proof.
  apply (LoginFacts.handleSubmit_settles accepting_api returning_onLogin VUndefined
           ada_form VNull); vm_compute; reflexivity.
Defined.

(** [handleSubmit_no_token] on a response without a token. *)
Lemma handleSubmit_no_token_witness :
  Login.handleSubmit tokenless_api returning_onLogin VUndefined ada_form =
    ((Login.settled_form ada_form Login.noTokenMessage,
      [Login.Called (Login.request_of ada_form (Login.trim " ada@example.org "))]),
     inl tt).
Proof.
  apply (LoginFacts.handleSubmit_no_token tokenless_api returning_onLogin VUndefined
           ada_form VNull " ada@example.org " (response (VObject [])));
    vm_compute; reflexivity.
Defined.
